(** * convert.ts: CodeSystem / CSV to ValueSet conversion

    A shallow embedding of [src/convert.ts] and the properties of its two
    conversion paths, [csvToValueSet] and [codeSystemToValueSet], and of the
    [convert] command's action.

    Strings are sequences of 8-bit code units (the bytes of the UTF-8 text):
    the only characters the program inspects are the ASCII comma, newline,
    slash and the letters of the two file extensions, none of which occurs
    inside a multi-byte UTF-8 sequence.  File names follow the POSIX rules of
    Node's [path] module. *)

From Stdlib Require Import Ascii.
From Stdlib Require String.
From stdpp Require Import base numbers list strings pretty.

Set Warnings "-register-all".

(** ** JavaScript values *)

(** The values the program handles: what the command line yields (strings and
    [undefined]), the [true] of a bare [--output] flag, and JSON-shaped data.
    Numbers are restricted to integers.  An object is the list of its own
    enumerable properties, in enumeration order. *)
Inductive value : Type :=
  | VUndefined
  | VNull
  | VBool (b : bool)
  | VNum (n : Z)
  | VStr (s : string)
  | VArr (elems : list value)
  | VObj (props : list (string * value)).

(** [!v] is [true] exactly on the falsy values. *)
Definition falsy (v : value) : bool :=
  match v with
  | VUndefined | VNull => true
  | VBool b => negb b
  | VNum n => bool_decide (n = 0%Z)
  | VStr s => bool_decide (s = "")
  | VArr _ | VObj _ => false
  end.

(** [a === b].  Primitives compare by type and content.  Arrays and objects
    compare by reference identity, which values of this model do not carry;
    two such operands are taken as distinct references. *)
Definition strict_equals (a b : value) : bool :=
  match a, b with
  | VUndefined, VUndefined => true
  | VNull, VNull => true
  | VBool x, VBool y => bool_decide (x = y)
  | VNum x, VNum y => bool_decide (x = y)
  | VStr x, VStr y => bool_decide (x = y)
  | _, _ => false
  end.

(** ** The produced document (types of 'fhir/r5', as far as they are used) *)

(** A property that holds [undefined] and a property that is absent are both
    [VUndefined]. *)
Record ValueSetComposeIncludeConcept : Type := {
  code : value;
  display : value;
  definition : value
}.

(** [concept] is optional in the declared type: [None] is the absent list. *)
Record ValueSetComposeInclude : Type := {
  system : value;
  concept : option (list ValueSetComposeIncludeConcept)
}.

Record ValueSet : Type := {
  resourceType : string;
  id : value;
  url : value;
  name : value;
  description : value;
  status : value;
  compose_include : list ValueSetComposeInclude
}.

Inductive error : Type :=
  | TypeError                (* a property read or a call on a value that has none *)
  | Error (message : string) (* [throw new Error(message)] *)
  | LoadError                (* [require] or [fs.readFileSync] failed *).

Inductive result (A : Type) : Type :=
  | Ok (a : A)
  | Throw (e : error).
Arguments Ok {A} a.
Arguments Throw {A} e.

(** Exceptions propagate: the error monad, with stdpp's [x ← r; k]. *)
Global Instance result_ret : MRet result := @Ok.
Global Instance result_bind : MBind result := λ A B k r,
  match r with
  | Ok a => k a
  | Throw e => Throw e
  end.

(** ** String primitives *)

(** [s.split(sep)] for a one-character separator: never the empty list. *)
Fixpoint split (sep : ascii) (s : string) : list string :=
  match s with
  | EmptyString => [EmptyString]
  | String c rest =>
      if bool_decide (c = sep) then EmptyString :: split sep rest
      else match split sep rest with
           | [] => [String c EmptyString]
           | w :: ws => String c w :: ws
           end
  end.

(** Element [i] of an array of strings, [undefined] past its end: what the
    destructuring [const [code, system, display] = ...] binds. *)
Definition element (fields : list string) (i : nat) : value :=
  match fields !! i with
  | Some s => VStr s
  | None => VUndefined
  end.

(** ** csvToValueSet, lines 78-102: parsing and grouping *)

Definition comma : ascii := "," % char.
Definition newline : ascii := "010" % char.

(** Lines 90-92: re-create an absent concept list. *)
Definition ensure_concept (group : ValueSetComposeInclude) : ValueSetComposeInclude :=
  match concept group with
  | None => {| system := system group; concept := Some [] |}
  | Some _ => group
  end.

(** Line 94: [group.concept?.push(c)]. *)
Definition push_concept (c : ValueSetComposeIncludeConcept)
    (group : ValueSetComposeInclude) : ValueSetComposeInclude :=
  match concept group with
  | None => group
  | Some cs => {| system := system group; concept := Some (cs ++ [c]) |}
  end.

(** Line 88: [include.findIndex((group) => group.system === system)];
    [None] is the source's [-1]. *)
Definition findIndex (sys : value) (include : list ValueSetComposeInclude) : option nat :=
  fst <$> list_find (λ group, Is_true (strict_equals (system group) sys)) include.

(** Lines 88-101: place one record. *)
Definition add_record (include : list ValueSetComposeInclude)
    (code system display : value) : list ValueSetComposeInclude :=
  let c := {| code := code; display := display; definition := VUndefined |} in
  match findIndex system include with
  | Some systemIndex =>
      alter (push_concept c) systemIndex (alter ensure_concept systemIndex include)
  | None =>
      include ++ [ {| system := system; concept := Some [c] |} ]
  end.

(** Lines 83-101: the loop body for one line. *)
Definition process_line (include : list ValueSetComposeInclude) (line : string)
    : list ValueSetComposeInclude :=
  let fields := split comma line in
  let code := element fields 0 in
  let system := element fields 1 in
  let display := element fields 2 in
  if falsy code then include
  else add_record include code system display.

(** Lines 78-102: [for (let i = 1; i < lines.length; i++)]. *)
Definition parse_include (csv : string) : list ValueSetComposeInclude :=
  let lines := split newline csv in
  foldl process_line [] (drop 1 lines).

(** ** Extensions and file names *)

Definition chars (s : string) : list ascii := String.list_ascii_of_string s.
Definition of_chars (l : list ascii) : string := String.string_of_list_ascii l.

(** [s.endsWith(suffix)], read from the end of both strings. *)
Fixpoint starts_with (p l : list ascii) : bool :=
  match p, l with
  | [], _ => true
  | _ :: _, [] => false
  | a :: p', b :: l' => bool_decide (a = b) && starts_with p' l'
  end.

Definition endsWith (s suffix : string) : bool :=
  starts_with (reverse (chars suffix)) (reverse (chars s)).

(** [s.replace(/<suffix>$/, replacement)] for a literal suffix and a
    replacement without [$] patterns: without the [m] flag, [$] matches at the
    end of the string only. *)
Definition replace_suffix (suffix replacement s : string) : string :=
  if endsWith s suffix
  then of_chars (reverse (drop (length (chars suffix)) (reverse (chars s))))
         +:+ replacement
  else s.

(** Node's POSIX [path.basename(path)]: scanning from the end, skip the
    trailing slashes, then collect characters up to the next slash. *)
Fixpoint basename_scan (rev_path : list ascii) (matchedSlash : bool)
    (acc : list ascii) : list ascii :=
  match rev_path with
  | [] => acc
  | c :: rest =>
      if bool_decide (c = "/" % char)
      then (if matchedSlash then basename_scan rest true acc else acc)
      else basename_scan rest false (c :: acc)
  end.

Definition basename (path : string) : string :=
  of_chars (basename_scan (reverse (chars path)) true []).

(** ** The host: file system, module loader and serializer *)

Record Host : Type := {
  (** [fs.readFileSync(path, 'utf8')]; [None] when it throws *)
  readFileSync : string → option string;
  (** [require(path)]; [None] when it throws *)
  require : string → option value;
  (** [JSON.stringify(valueSet, null, 2)] *)
  JSON_stringify : ValueSet → string
}.

(** ** csvToValueSet *)

Record CsvOptions : Type := {
  csvFile : string;
  csv_status : option string;
  csv_url : option string;
  csv_name : option string;
  csv_description : option string;
  csv_id : option string
}.

(** An optional string as a value. *)
Definition optional (o : option string) : value :=
  match o with
  | Some s => VStr s
  | None => VUndefined
  end.

(** [o || fallback] for an optional string [o]: [undefined] and the empty
    string are the falsy ones. *)
Definition or_else (o : option string) (fallback : string) : string :=
  match o with
  | Some s => if bool_decide (s = "") then fallback else s
  | None => fallback
  end.

Definition csvToValueSet (h : Host) (options : CsvOptions) : result ValueSet :=
  match readFileSync h (csvFile options) with
  | None => Throw LoadError
  | Some csv =>
      let include := parse_include csv in
      let id := or_else (csv_id options)
                  (replace_suffix ".csv" "" (basename (csvFile options))) in
      Ok {| resourceType := "ValueSet";
            id := VStr id;
            url := VStr (or_else (csv_url options) ("http://hl7.org/fhir/ValueSet/" +:+ id));
            name := VStr (or_else (csv_name options) id);
            description := optional (csv_description options);
            status := VStr (or_else (csv_status options) "active");
            compose_include := include |}
  end.

(** ** Property access *)

Definition props : Type := list (string * value).

(** The own property [key] of an object's property list. *)
Fixpoint own_lookup (key : string) (o : props) : option value :=
  match o with
  | [] => None
  | (k, v) :: rest => if bool_decide (k = key) then Some v else own_lookup key rest
  end.

(** [o[key] = v] *)
Fixpoint assign (key : string) (v : value) (o : props) : props :=
  match o with
  | [] => [(key, v)]
  | (k, w) :: rest =>
      if bool_decide (k = key) then (k, v) :: rest else (k, w) :: assign key v rest
  end.

(** The index an array-index key denotes, among the indices below [n]. *)
Definition array_index (key : string) (n : nat) : option nat :=
  fst <$> list_find (λ i, pretty i = key) (seq 0 n).

(** The own properties of a value: those of an object, and the length and
    the indexed elements of an array or of a string.  A string's length and
    indices count its 8-bit code units: they are those of JavaScript for
    ASCII strings only. *)
Definition own_property (v : value) (key : string) : option value :=
  match v with
  | VObj o => own_lookup key o
  | VArr elems =>
      if bool_decide (key = "length") then Some (VNum (Z.of_nat (length elems)))
      else i ← array_index key (length elems); elems !! i
  | VStr s =>
      if bool_decide (key = "length") then Some (VNum (Z.of_nat (String.length s)))
      else i ← array_index key (String.length s);
           c ← chars s !! i; Some (VStr (String c ""))
  | _ => None
  end.

(** [v.key] and [v[key]], for the keys this program reads: none of them names
    a property of a built-in prototype, so a key that is not an own property
    reads as [undefined].  Reading from [undefined] or [null] throws. *)
Definition get (v : value) (key : string) : result value :=
  match v with
  | VUndefined | VNull => Throw TypeError
  | _ => Ok (default VUndefined (own_property v key))
  end.

(** [v.hasOwnProperty(key)]: the method is [Object.prototype.hasOwnProperty]
    unless [v] has an own property of that name, which in this model is data
    and cannot be called. *)
Definition hasOwnProperty (v : value) (key : string) : result bool :=
  match v with
  | VUndefined | VNull => Throw TypeError
  | _ =>
      match own_property v "hasOwnProperty" with
      | Some _ => Throw TypeError
      | None => Ok (bool_decide (is_Some (own_property v key)))
      end
  end.

(** ** codeSystemToValueSet *)

(** Lines 28-31, the body of the [for ... in] loop. *)
Definition fill_property (options : props) (property : string) : result props :=
  own ← hasOwnProperty (VObj options) property;
  if negb own then Ok options else
  current ← get (VObj options) property;
  if negb (falsy current) then Ok options else
  codeSystem ← get (VObj options) "codeSystem";
  has ← hasOwnProperty codeSystem property;
  if negb has then Ok options else
  v ← get codeSystem property;
  Ok (assign property v options).

(** Lines 27-32: the loop visits the property names the object has when the
    loop starts; the body adds and deletes none. *)
Fixpoint for_in (keys : list string) (options : props) : result props :=
  match keys with
  | [] => Ok options
  | property :: rest => options' ← fill_property options property; for_in rest options'
  end.

(** Lines 51-55: the callback of [map]. *)
Definition map_concept (c : value) : result ValueSetComposeIncludeConcept :=
  code ← get c "code";
  display ← get c "display";
  definition ← get c "definition";
  Ok {| code := code; display := display; definition := definition |}.

(** [v.map(f)]: only an array has the method. *)
Definition array_map {B} (f : value → result B) (v : value) : result (list B) :=
  match v with
  | VArr elems => mapM f elems
  | _ => Throw TypeError
  end.

(** [require(id)]: the identifier must be a string. *)
Definition load (h : Host) (file : value) : result value :=
  match file with
  | VStr f => match require h f with Some doc => Ok doc | None => Throw LoadError end
  | _ => Throw TypeError
  end.

Definition codeSystemToValueSet (h : Host) (options : props) : result ValueSet :=
  (* line 25: the document is bound to the local [codeSystem] *)
  jsonFile ← get (VObj options) "jsonFile";
  codeSystem ← load h jsonFile;
  (* lines 27-32 *)
  options ← for_in options.*1 options;
  (* lines 35-37 *)
  options_codeSystem ← get (VObj options) "codeSystem";
  concept ← get options_codeSystem "concept";
  if falsy concept then Throw (Error "CodeSystem must have at least one concept") else
  (* lines 40-59 *)
  id ← get (VObj options) "id";
  url ← get (VObj options) "url";
  name ← get (VObj options) "name";
  description ← get (VObj options) "description";
  status ← get (VObj options) "status";
  system ← get options_codeSystem "url";
  concepts ← array_map map_concept concept;
  Ok {| resourceType := "ValueSet";
        id := id; url := url; name := name;
        description := description; status := status;
        compose_include := [ {| system := system; concept := Some concepts |} ] |}.

(** ** The [convert] command *)

(** [options.output], declared as [-o, --output [file]]: absent, the bare
    flag ([true]), or the given path. *)
Inductive output_option : Type :=
  | OutputAbsent
  | OutputFlag
  | OutputPath (path : string).

(** What the user gave on the command line. *)
Record CommandLine : Type := {
  opt_output : output_option;
  opt_url : option string;
  opt_name : option string;
  opt_description : option string;
  opt_id : option string;
  opt_status : option string
}.

(** Line 131: [.option('-s, --status <status>', 'ValueSet status', 'draft')]. *)
Definition options_status (cl : CommandLine) : string :=
  default "draft" (opt_status cl).

(** Lines 136-143: the object passed to [csvToValueSet]. *)
Definition flat_options (file : string) (cl : CommandLine) : CsvOptions :=
  {| csvFile := file;
     csv_status := Some (options_status cl);
     csv_url := opt_url cl;
     csv_name := opt_name cl;
     csv_description := opt_description cl;
     csv_id := opt_id cl |}.

(** Lines 145-152: the object passed to [codeSystemToValueSet]. *)
Definition structured_options (file : string) (cl : CommandLine) : props :=
  [ ("jsonFile", VStr file);
    ("status", VStr (options_status cl));
    ("url", optional (opt_url cl));
    ("name", optional (opt_name cl));
    ("description", optional (opt_description cl));
    ("id", optional (opt_id cl)) ].

(** Lines 134-153: dispatch on the extension. *)
Definition convert (h : Host) (file : string) (cl : CommandLine) : result ValueSet :=
  if endsWith file ".csv" then csvToValueSet h (flat_options file cl)
  else codeSystemToValueSet h (structured_options file cl).

(** Lines 160-161. *)
Definition derive_outFile (file : string) : string :=
  replace_suffix ".csv" ".json" (replace_suffix ".json" "-value-set.json" file).

Inductive effect : Type :=
  | WriteFileSync (outFile : string) (data : string)
  | ConsoleLog (text : string).

(** Lines 154-166. *)
Definition emit (h : Host) (valueSet : ValueSet) (file : string)
    (output : output_option) : effect :=
  let jsonStr := JSON_stringify h valueSet in
  match output with
  | OutputAbsent => ConsoleLog jsonStr
  | OutputFlag => WriteFileSync (derive_outFile file) jsonStr
  | OutputPath outFile =>
      if bool_decide (outFile = "") then ConsoleLog jsonStr
      else WriteFileSync outFile jsonStr
  end.

(** Lines 132-167. *)
Definition action (h : Host) (file : string) (cl : CommandLine) : result effect :=
  valueSet ← convert h file cl;
  Ok (emit h valueSet file (opt_output cl)).

(** ** The flat input as a sequence of records *)

(** The records of a flat input: one per line after line 0 whose first field
    is not empty, in file order. *)
Record FlatRecord : Type := {
  rec_code : string;
  rec_system : option string;
  rec_display : option string
}.

Definition first_field (line : string) : string :=
  default "" (head (split comma line)).

Definition record_of_line (line : string) : option FlatRecord :=
  let fields := split comma line in
  if bool_decide (first_field line = "") then None
  else Some {| rec_code := first_field line;
               rec_system := fields !! 1;
               rec_display := fields !! 2 |}.

Definition data_lines (csv : string) : list string := drop 1 (split newline csv).

Definition records (csv : string) : list FlatRecord :=
  omap record_of_line (data_lines csv).

Definition concept_of (r : FlatRecord) : ValueSetComposeIncludeConcept :=
  {| code := VStr (rec_code r);
     display := optional (rec_display r);
     definition := VUndefined |}.

(** Lines 88-101 run over a sequence of records. *)
Definition group_records (recs : list FlatRecord) : list ValueSetComposeInclude :=
  foldl (λ include r,
           add_record include (VStr (rec_code r))
             (optional (rec_system r)) (optional (rec_display r)))
        [] recs.

(** The distinct elements of a list in the order of their first appearance. *)
Fixpoint first_occurrences {A} `{EqDecision A} (l : list A) : list A :=
  match l with
  | [] => []
  | x :: rest => x :: filter (λ y, y ≠ x) (first_occurrences rest)
  end.

(** The records of one system, in arrival order. *)
Definition records_of_system (s : option string) (recs : list FlatRecord)
    : list FlatRecord :=
  filter (λ r, rec_system r = s) recs.

Definition group_of (recs : list FlatRecord) (s : option string)
    : ValueSetComposeInclude :=
  {| system := optional s;
     concept := Some (concept_of <$> records_of_system s recs) |}.

(** The grouping as the specification words it. *)
Definition grouped (recs : list FlatRecord) : list ValueSetComposeInclude :=
  group_of recs <$> first_occurrences (rec_system <$> recs).

Definition concepts_of (group : ValueSetComposeInclude)
    : list ValueSetComposeIncludeConcept :=
  default [] (concept group).

Definition total_concepts (include : list ValueSetComposeInclude) : nat :=
  sum_list_with (λ group, length (concepts_of group)) include.

Definition populated (group : ValueSetComposeInclude) : Prop :=
  ∃ c cs, concept group = Some (c :: cs).

(** ** Example inputs *)

Definition lf : string := String newline "".

(** The flat file of end-to-end scenario 1. *)
Definition scenario1 : string :=
  "code,system,display" +:+ lf +:+ "A,http://sys,Alpha" +:+ lf +:+
  "B,http://sys,Beta" +:+ lf +:+ "C,http://other,Gamma" +:+ lf.

(** A flat file with nothing but the header line. *)
Definition header_only : string := "code,system,display" +:+ lf.

(** Records with an empty system field and records without one. *)
Definition mixed_systems : string :=
  "code,system,display" +:+ lf +:+ "A1,,Display One" +:+ lf +:+ "A2" +:+ lf +:+
  "A3,,Display Three" +:+ lf +:+ "A4".

(** The structured document of end-to-end scenario 2. *)
Definition scenario2 : value :=
  VObj [ ("url", VStr "http://sys");
         ("concept", VArr [ VObj [ ("code", VStr "A"); ("display", VStr "Alpha") ] ]) ].

(** A structured document with an empty concept list. *)
Definition no_concepts : value :=
  VObj [ ("url", VStr "http://sys"); ("concept", VArr []) ].

(** A host holding these files.  The serializer is a stand-in: no property
    below depends on which function it is. *)
Definition example_host : Host :=
  {| readFileSync := λ path,
       if bool_decide (path = "/data/codes.csv") then Some scenario1
       else if bool_decide (path = "/data/empty.csv") then Some header_only
       else if bool_decide (path = "/data/mixed.csv") then Some mixed_systems
       else None;
     require := λ path,
       if bool_decide (path = "/data/codesystem.json") then Some scenario2
       else if bool_decide (path = "/data/empty.json") then Some no_concepts
       else None;
     JSON_stringify := resourceType |}.

(** A host that holds another document at the path of scenario 2. *)
Definition swapped_host : Host :=
  {| readFileSync := λ _, None;
     require := λ path,
       if bool_decide (path = "/data/codesystem.json") then Some no_concepts
       else None;
     JSON_stringify := resourceType |}.

(** A host that holds the document of scenario 2 at a path without
    extension. *)
Definition plain_host : Host :=
  {| readFileSync := λ _, None;
     require := λ path,
       if bool_decide (path = "/data/codesystem") then Some scenario2 else None;
     JSON_stringify := resourceType |}.

(** A command line with [--output] as a bare flag and nothing else. *)
Definition bare_output : CommandLine :=
  {| opt_output := OutputFlag; opt_url := None; opt_name := None;
     opt_description := None; opt_id := None; opt_status := None |}.

(** The options with the document under the property [codeSystem], where
    lines 28-51 read it. *)
Definition with_codeSystem (doc : value) (options : props) : props :=
  options ++ [ ("codeSystem", doc) ].

(** A command line without any option. *)
Definition no_options : CommandLine :=
  {| opt_output := OutputAbsent; opt_url := None; opt_name := None;
     opt_description := None; opt_id := None; opt_status := None |}.

Definition csv_defaults (file : string) : CsvOptions :=
  {| csvFile := file; csv_status := None; csv_url := None; csv_name := None;
     csv_description := None; csv_id := None |}.

(** ** Further notions for stating properties *)

(** A field as a line can hold it: no field separator, no line separator. *)
Definition plain (s : string) : Prop :=
  (comma ∉ chars s) ∧ (newline ∉ chars s).

(** A value read from a line: a plain string, or nothing. *)
Definition plain_value (v : value) : Prop :=
  match v with
  | VUndefined => True
  | VStr s => plain s
  | _ => False
  end.

(** An option given as the empty string, taken as not given. *)
Definition blank_to_absent (o : option string) : option string :=
  match o with
  | Some s => if bool_decide (s = "") then None else Some s
  | None => None
  end.

(** The options after the loop of lines 27-32, when [options.codeSystem] is
    an object with the properties [doc]: each falsy option takes the value of
    the property of [doc] of its name, if there is one. *)
Definition filled (doc : props) (options : props) : props :=
  (λ kv, (kv.1, if falsy kv.2 then default kv.2 (own_lookup kv.1 doc) else kv.2))
    <$> options.

(** The concept that line 51-55 makes of an element that has properties. *)
Definition concept_fields (c : value) : ValueSetComposeIncludeConcept :=
  {| code := default VUndefined (own_property c "code");
     display := default VUndefined (own_property c "display");
     definition := default VUndefined (own_property c "definition") |}.

(** A value from which a property can be read. *)
Definition readable (v : value) : Prop := v ≠ VUndefined ∧ v ≠ VNull.

(** * Properties *)

(** ** First occurrences *)

Section first_occurrences.
Context {A : Type} `{EqDecision A}.
Implicit Types l : list A.

Lemma elem_of_first_occurrences l x : x ∈ first_occurrences l ↔ x ∈ l.
Proof.
  induction l as [|y l IH]; simpl; [done|].
  rewrite !elem_of_cons, list_elem_of_filter, IH.
  destruct (decide (x = y)); tauto.
Qed.

Lemma NoDup_first_occurrences l : NoDup (first_occurrences l).
Proof.
  induction l as [|y l IH]; simpl; [constructor|].
  apply NoDup_cons. split; [|by apply NoDup_filter].
  rewrite list_elem_of_filter. intros [Hne _]. by apply Hne.
Qed.

Lemma first_occurrences_snoc l x :
  first_occurrences (l ++ [x]) =
    if decide (x ∈ l) then first_occurrences l else first_occurrences l ++ [x].
Proof.
  induction l as [|y l IH]; [done|].
  rewrite <-app_comm_cons. cbn [first_occurrences].
  rewrite IH. destruct (decide (x ∈ l)) as [Hin|Hnin].
  - rewrite decide_True; [done | by right].
  - rewrite filter_app, filter_cons, filter_nil.
    destruct (decide (x = y)) as [->|Hne].
    + rewrite decide_False by (intros Hyy; by apply Hyy).
      rewrite decide_True by left. by rewrite app_nil_r.
    + rewrite decide_True by done.
      rewrite decide_False; [done|].
      rewrite elem_of_cons. intros [?|?]; contradiction.
Qed.
End first_occurrences.

(** ** The grouping loop against the grouping as specified *)

Lemma strict_equals_optional (a b : option string) :
  Is_true (strict_equals (optional a) (optional b)) ↔ a = b.
Proof.
  destruct a, b; simpl; rewrite ?bool_decide_spec; naive_solver.
Qed.

Lemma findIndex_group_of recs s (keys : list (option string)) :
  findIndex (optional s) (group_of recs <$> keys) =
    fst <$> list_find (λ k, k = s) keys.
Proof.
  unfold findIndex. rewrite list_find_fmap.
  rewrite (list_find_ext _ (λ k, k = s)).
  - by destruct (list_find _ keys) as [[]|].
  - intros k. apply strict_equals_optional.
Qed.

Lemma records_of_system_snoc s recs r :
  records_of_system s (recs ++ [r]) =
    if decide (rec_system r = s) then records_of_system s recs ++ [r]
    else records_of_system s recs.
Proof.
  unfold records_of_system. rewrite filter_app, filter_cons, filter_nil.
  case_decide; [done | by rewrite app_nil_r].
Qed.

Lemma group_of_snoc_ne recs r k :
  k ≠ rec_system r → group_of (recs ++ [r]) k = group_of recs k.
Proof.
  intros Hne. unfold group_of. rewrite records_of_system_snoc.
  by rewrite decide_False.
Qed.

Lemma records_of_system_fresh s recs :
  s ∉ rec_system <$> recs → records_of_system s recs = [].
Proof.
  intros Hnin. unfold records_of_system.
  induction recs as [|r recs IH]; [done|].
  rewrite fmap_cons, not_elem_of_cons in Hnin. destruct Hnin as [Hne Hnin].
  rewrite filter_cons, decide_False by done. auto.
Qed.

Lemma add_record_grouped recs r :
  add_record (grouped recs) (VStr (rec_code r))
    (optional (rec_system r)) (optional (rec_display r))
  = grouped (recs ++ [r]).
Proof.
  unfold add_record, grouped.
  rewrite findIndex_group_of, fmap_app.
  change (rec_system <$> [r]) with [rec_system r].
  rewrite first_occurrences_snoc.
  set (keys := first_occurrences (rec_system <$> recs)).
  assert (NoDup keys) as Hnodup by apply NoDup_first_occurrences.
  destruct (list_find _ keys) as [[i k]|] eqn:Hfind; simpl.
  - apply list_find_Some in Hfind as (Hi & -> & _).
    rewrite decide_True
      by (apply elem_of_first_occurrences; by eapply list_elem_of_lookup_2).
    apply list_eq. intros j.
    destruct (decide (i = j)) as [<-|Hij].
    + rewrite !list_lookup_alter_eq, !list_lookup_fmap, Hi. simpl.
      unfold group_of.
      rewrite records_of_system_snoc, decide_True by done.
      by rewrite fmap_app.
    + rewrite !list_lookup_alter_ne by done. rewrite !list_lookup_fmap.
      destruct (keys !! j) as [k|] eqn:Hj; [simpl|done].
      rewrite group_of_snoc_ne; [done|].
      intros ->. by apply Hij, (NoDup_lookup keys i j (rec_system r)).
  - apply list_find_None in Hfind.
    assert (rec_system r ∉ keys) as Hfresh.
    { intros Hin. rewrite Forall_forall in Hfind. by apply (Hfind _ Hin). }
    rewrite decide_False by (by rewrite <-elem_of_first_occurrences).
    rewrite fmap_app. f_equal.
    + apply list_fmap_ext. intros j k Hj. symmetry. apply group_of_snoc_ne.
      intros ->. by apply Hfresh, list_elem_of_lookup_2 with j.
    + simpl. unfold group_of.
      rewrite records_of_system_snoc, decide_True by done.
      rewrite records_of_system_fresh; [done|].
      by rewrite <-elem_of_first_occurrences.
Qed.

Lemma group_records_grouped recs : group_records recs = grouped recs.
Proof.
  induction recs as [|r recs IH] using rev_ind; [done|].
  unfold group_records in *. by rewrite foldl_snoc, IH, add_record_grouped.
Qed.

(** ** The loop over lines and the records *)

Lemma split_cons sep s : ∃ w ws, split sep s = w :: ws.
Proof.
  induction s as [|c s (w & ws & IH)]; simpl; [by eauto|].
  case_bool_decide; [by eauto|]. rewrite IH. by eauto.
Qed.

Lemma process_line_record include line :
  process_line include line =
    match record_of_line line with
    | None => include
    | Some r => add_record include (VStr (rec_code r))
                  (optional (rec_system r)) (optional (rec_display r))
    end.
Proof.
  unfold process_line, record_of_line, first_field.
  destruct (split_cons comma line) as (c & fields & ->). simpl.
  by case_bool_decide.
Qed.

Lemma foldl_process_line include lines :
  foldl process_line include lines =
    foldl (λ include r,
             add_record include (VStr (rec_code r))
               (optional (rec_system r)) (optional (rec_display r)))
          include (omap record_of_line lines).
Proof.
  revert include. induction lines as [|line lines IH]; intros include; [done|].
  simpl. rewrite IH, process_line_record.
  by destruct (record_of_line line).
Qed.

Lemma parse_include_records csv :
  parse_include csv = group_records (records csv).
Proof. apply foldl_process_line. Qed.

Lemma length_records csv :
  length (records csv) =
    length (filter (λ line, first_field line ≠ "") (data_lines csv)).
Proof.
  unfold records. induction (data_lines csv) as [|line lines IH]; [done|].
  rewrite filter_cons. cbn [omap list_omap]. unfold record_of_line at 1.
  case_bool_decide.
  - by rewrite decide_False by (intros Hne; by apply Hne).
  - rewrite decide_True by done. cbn [length]. by f_equal.
Qed.

(** ** Invariants of the grouping loop *)

Lemma findIndex_Some sys include i :
  findIndex sys include = Some i → is_Some (include !! i).
Proof.
  unfold findIndex. destruct (list_find _ include) as [[j g]|] eqn:Hfind; [|done].
  intros [= <-]. apply list_find_Some in Hfind as [Hj _]. by eexists.
Qed.

Lemma populated_ensure_concept group :
  populated group → ensure_concept group = group.
Proof. intros (c & cs & H). unfold ensure_concept. by rewrite H. Qed.

Lemma populated_push_concept c group :
  populated group → populated (push_concept c group).
Proof.
  intros (c0 & cs & H). unfold push_concept. rewrite H.
  by exists c0, (cs ++ [c]).
Qed.

Lemma length_push_concept c group :
  populated group →
  length (concepts_of (push_concept c group)) = S (length (concepts_of group)).
Proof.
  intros (c0 & cs & H). unfold push_concept, concepts_of. rewrite H. simpl.
  rewrite length_app. simpl. lia.
Qed.

Lemma add_record_populated include code sys display :
  Forall populated include → Forall populated (add_record include code sys display).
Proof.
  intros Hinv. unfold add_record.
  destruct (findIndex sys include) as [i|].
  - apply Forall_alter.
    + apply Forall_alter; [done|]. intros g _ Hg.
      by rewrite populated_ensure_concept.
    + intros g _ Hg. by apply populated_push_concept.
  - apply Forall_app. split; [done|].
    apply Forall_singleton. by eexists _, [].
Qed.

Lemma total_concepts_alter f i include group :
  include !! i = Some group →
  length (concepts_of (f group)) = S (length (concepts_of group)) →
  total_concepts (alter f i include) = S (total_concepts include).
Proof.
  revert i. induction include as [|g include IH]; intros [|i] Hi Hlen;
    simplify_eq/=.
  - unfold total_concepts. simpl. by rewrite Hlen.
  - unfold total_concepts in *. simpl. rewrite (IH i) by done. lia.
Qed.

Lemma add_record_total include code sys display :
  Forall populated include →
  total_concepts (add_record include code sys display) = S (total_concepts include).
Proof.
  intros Hinv. unfold add_record.
  destruct (findIndex sys include) as [i|] eqn:Hfind.
  - apply findIndex_Some in Hfind as [g Hg].
    assert (populated g) as Hpop
      by (rewrite Forall_lookup in Hinv; by eapply Hinv).
    assert (alter ensure_concept i include = include) as ->.
    { etrans; [apply (list_alter_ext _ (λ g, g)); [|done] | by apply list_alter_id].
      intros g' Hg'. simplify_eq. by apply populated_ensure_concept. }
    apply total_concepts_alter with g; [done|].
    by apply length_push_concept.
  - unfold total_concepts. rewrite sum_list_with_app. simpl. lia.
Qed.

Lemma foldl_process_line_populated lines :
  Forall populated (foldl process_line [] lines).
Proof.
  rewrite foldl_process_line.
  induction (omap record_of_line lines) as [|r recs IH] using rev_ind;
    [constructor|].
  rewrite foldl_snoc. by apply add_record_populated.
Qed.

Lemma group_records_populated recs : Forall populated (group_records recs).
Proof.
  unfold group_records.
  induction recs as [|r recs IH] using rev_ind; [constructor|].
  rewrite foldl_snoc. by apply add_record_populated.
Qed.

Lemma total_concepts_group_records recs :
  total_concepts (group_records recs) = length recs.
Proof.
  induction recs as [|r recs IH] using rev_ind; [done|].
  pose proof (group_records_populated recs) as Hpop.
  unfold group_records in *.
  rewrite foldl_snoc, length_app, add_record_total by done.
  simpl. lia.
Qed.

Lemma csvToValueSet_include h options csv :
  readFileSync h (csvFile options) = Some csv →
  ∃ valueSet, csvToValueSet h options = Ok valueSet
              ∧ compose_include valueSet = parse_include csv.
Proof. intros Hread. unfold csvToValueSet. rewrite Hread. by eexists. Qed.

Lemma grouped_nil recs : grouped recs = [] ↔ recs = [].
Proof.
  split; [|by intros ->]. destruct recs as [|r recs]; [done|].
  unfold grouped. simpl. discriminate.
Qed.

Lemma records_nil csv :
  records csv = [] ↔ Forall (λ line, first_field line = "") (data_lines csv).
Proof.
  unfold records. induction (data_lines csv) as [|line lines IH].
  - split; [constructor | done].
  - cbn [omap list_omap]. unfold record_of_line at 1. rewrite Forall_cons.
    case_bool_decide; simpl; [tauto|]. split; [discriminate | tauto].
Qed.

Lemma split_no_separator sep s : sep ∉ chars s → split sep s = [s].
Proof.
  induction s as [|c s IH]; [done|]. unfold chars. simpl.
  rewrite not_elem_of_cons. intros [Hne Hnin].
  rewrite bool_decide_eq_false_2 by (intros ->; by apply Hne).
  by rewrite IH.
Qed.

Lemma optional_inj a b : optional a = optional b → a = b.
Proof. destruct a, b; simpl; congruence. Qed.

(** ** The flat conversion *)

(** End-to-end scenario 1: two groups, in the order of the file. *)
Example scenario1_groups :
  parse_include scenario1 =
    [ {| system := VStr "http://sys";
         concept := Some [ {| code := VStr "A"; display := VStr "Alpha";
                              definition := VUndefined |};
                           {| code := VStr "B"; display := VStr "Beta";
                              definition := VUndefined |} ] |};
      {| system := VStr "http://other";
         concept := Some [ {| code := VStr "C"; display := VStr "Gamma";
                              definition := VUndefined |} ] |} ].
Proof. reflexivity. Qed.

(** The empty system and the absent system make two groups. *)
Example mixed_systems_groups :
  parse_include mixed_systems =
    [ {| system := VStr "";
         concept := Some [ {| code := VStr "A1"; display := VStr "Display One";
                              definition := VUndefined |};
                           {| code := VStr "A3"; display := VStr "Display Three";
                              definition := VUndefined |} ] |};
      {| system := VUndefined;
         concept := Some [ {| code := VStr "A2"; display := VUndefined;
                              definition := VUndefined |};
                           {| code := VStr "A4"; display := VUndefined;
                              definition := VUndefined |} ] |} ].
Proof. reflexivity. Qed.

(** C3.  The concepts of all inclusion groups of a flat conversion number as
    many as the lines after line 0 whose first field is not empty, and a line
    whose first field is empty leaves the groups as they are. *)
Theorem csv_concept_count :
  (∀ h options csv,
     readFileSync h (csvFile options) = Some csv →
     ∃ valueSet,
       csvToValueSet h options = Ok valueSet ∧
       total_concepts (compose_include valueSet) =
         length (filter (λ line, first_field line ≠ "") (data_lines csv)))
  ∧ (∀ include line, first_field line = "" → process_line include line = include).
Proof.
  split.
  - intros h options csv Hread.
    destruct (csvToValueSet_include h options csv Hread) as (vs & Hvs & Hinc).
    exists vs. split; [done|].
    by rewrite Hinc, parse_include_records, total_concepts_group_records,
      length_records.
  - intros include line Hempty. rewrite process_line_record.
    unfold record_of_line. by rewrite bool_decide_eq_true_2.
Qed.

Lemma csv_concept_count_witness :
  (∃ valueSet,
     csvToValueSet example_host (csv_defaults "/data/codes.csv") = Ok valueSet ∧
     total_concepts (compose_include valueSet) = 3)
  ∧ process_line [] ",http://sys,Nameless" = [].
Proof.
  destruct csv_concept_count as [Hcount Hskip]. split.
  - destruct (Hcount example_host (csv_defaults "/data/codes.csv") scenario1)
      as (vs & Hvs & Htotal); [reflexivity|].
    exists vs. split; [exact Hvs|]. rewrite Htotal. reflexivity.
  - apply Hskip. reflexivity.
Defined.

(** C4.  The groups appear in the order in which their systems first appear
    among the records, and the concepts of a group are those of the records of
    its system, all of them, in arrival order.  The loop over the lines of a
    flat input is this grouping of its records. *)
Theorem grouping_order :
  (∀ recs,
     system <$> group_records recs =
       optional <$> first_occurrences (rec_system <$> recs)
     ∧ concept <$> group_records recs =
         (λ s, Some (concept_of <$> records_of_system s recs))
           <$> first_occurrences (rec_system <$> recs))
  ∧ (∀ csv, parse_include csv = group_records (records csv)).
Proof.
  split; [|apply parse_include_records].
  intros recs. rewrite group_records_grouped. unfold grouped.
  by rewrite <-!list_fmap_compose.
Qed.

(** C9.  In every state the loop reaches, each group has a concept list with
    at least one concept, so re-creating an absent list (lines 90-92) never
    changes a group; in particular the groups of the result are not empty. *)
Theorem flat_groups_populated :
  (∀ lines,
     Forall (λ group, populated group ∧ ensure_concept group = group)
       (foldl process_line [] lines))
  ∧ (∀ csv, Forall populated (parse_include csv)).
Proof.
  split.
  - intros lines. eapply Forall_impl; [apply foldl_process_line_populated|].
    intros group Hpop. split; [done | by apply populated_ensure_concept].
  - intros csv. apply foldl_process_line_populated.
Qed.

(** ** Suffixes and base names *)

Lemma chars_app a b : chars (a +:+ b) = chars a ++ chars b.
Proof. unfold chars. induction a as [|c a IH]; [done|]. simpl. by rewrite <-IH. Qed.

Lemma of_chars_app l k : of_chars (l ++ k) = of_chars l +:+ of_chars k.
Proof. unfold of_chars. induction l as [|c l IH]; [done|]. simpl. by rewrite IH. Qed.

Lemma append_empty_r s : s +:+ "" = s.
Proof. induction s as [|c s IH]; [done|]. unfold String.app in *. simpl. by rewrite IH. Qed.

Lemma of_chars_chars s : of_chars (chars s) = s.
Proof. apply String.string_of_list_ascii_of_string. Qed.

Lemma starts_with_app l k : starts_with l (l ++ k) = true.
Proof.
  induction l as [|c l IH]; [done|]. cbn [starts_with app].
  by rewrite bool_decide_eq_true_2.
Qed.

Lemma endsWith_app p suffix : endsWith (p +:+ suffix) suffix = true.
Proof. unfold endsWith. rewrite chars_app, reverse_app. apply starts_with_app. Qed.

Lemma replace_suffix_app suffix replacement p :
  replace_suffix suffix replacement (p +:+ suffix) = p +:+ replacement.
Proof.
  unfold replace_suffix. rewrite endsWith_app, chars_app, reverse_app.
  rewrite drop_app_length' by (by rewrite length_reverse).
  by rewrite reverse_involutive, of_chars_chars.
Qed.

Lemma replace_suffix_other suffix replacement s :
  endsWith s suffix = false → replace_suffix suffix replacement s = s.
Proof. intros H. unfold replace_suffix. by rewrite H. Qed.

Lemma basename_scan_component l rest acc :
  "/"%char ∉ l →
  basename_scan (l ++ "/"%char :: rest) false acc = reverse l ++ acc.
Proof.
  revert acc. induction l as [|c l IH]; intros acc Hl.
  - cbn [basename_scan app]. by rewrite bool_decide_eq_true_2.
  - apply not_elem_of_cons in Hl as [Hc Hl]. cbn [basename_scan app].
    rewrite bool_decide_eq_false_2 by (intros ->; by apply Hc).
    rewrite IH by done. by rewrite reverse_cons, <-app_assoc.
Qed.

Lemma basename_scan_whole l acc m :
  "/"%char ∉ l → basename_scan l m acc = reverse l ++ acc.
Proof.
  revert acc m. induction l as [|c l IH]; intros acc m Hl; [done|].
  apply not_elem_of_cons in Hl as [Hc Hl]. cbn [basename_scan].
  rewrite bool_decide_eq_false_2 by (intros ->; by apply Hc).
  rewrite IH by done. by rewrite reverse_cons, <-app_assoc.
Qed.

(** The base name of [dir/stem.csv] and of [stem.csv], less the extension,
    is [stem]. *)
Lemma basename_csv_in_directory dir stem :
  "/"%char ∉ chars stem →
  replace_suffix ".csv" "" (basename (dir +:+ "/" +:+ stem +:+ ".csv")) = stem.
Proof.
  intros Hstem.
  assert (basename (dir +:+ "/" +:+ stem +:+ ".csv") = stem +:+ ".csv") as ->.
  { unfold basename. rewrite !chars_app, !reverse_app.
    change (reverse (chars ".csv")) with (chars "vsc.").
    change (reverse (chars "/")) with ["/"%char].
    rewrite <-!app_assoc. simpl.
    rewrite basename_scan_component by (by rewrite elem_of_reverse).
    by rewrite reverse_involutive, (of_chars_app _ (chars ".csv")), of_chars_chars. }
  by rewrite (replace_suffix_app ".csv" ""), append_empty_r.
Qed.

Lemma basename_csv_plain stem :
  "/"%char ∉ chars stem →
  replace_suffix ".csv" "" (basename (stem +:+ ".csv")) = stem.
Proof.
  intros Hstem.
  assert (basename (stem +:+ ".csv") = stem +:+ ".csv") as ->.
  { unfold basename. rewrite !chars_app, !reverse_app.
    change (reverse (chars ".csv")) with (chars "vsc."). simpl.
    rewrite basename_scan_whole by (by rewrite elem_of_reverse).
    by rewrite reverse_involutive, (of_chars_app _ (chars ".csv")), of_chars_chars. }
  by rewrite (replace_suffix_app ".csv" ""), append_empty_r.
Qed.

(** ** The document of the flat conversion *)

(** A flat file with only its header line converts successfully to a
    document without any inclusion group. *)
Lemma header_only_succeeds_without_groups :
  ∃ valueSet,
    csvToValueSet example_host (csv_defaults "/data/empty.csv") = Ok valueSet
    ∧ ¬ ∃ group, group ∈ compose_include valueSet ∧ populated group.
Proof.
  eexists. split; [reflexivity|].
  intros (group & Hin & _). vm_compute in Hin. by apply elem_of_nil in Hin.
Qed.

(** C5, amended.  A flat conversion succeeds whenever its file can be read;
    each inclusion group of its document has at least one concept, and the
    document has no group at all exactly when no line after line 0 has a
    non-empty first field. *)
Theorem flat_output_groups h options csv :
  readFileSync h (csvFile options) = Some csv →
  ∃ valueSet,
    csvToValueSet h options = Ok valueSet
    ∧ Forall populated (compose_include valueSet)
    ∧ (compose_include valueSet = [] ↔
         Forall (λ line, first_field line = "") (data_lines csv)).
Proof.
  intros Hread.
  destruct (csvToValueSet_include h options csv Hread) as (vs & Hvs & Hinc).
  exists vs. rewrite Hinc. split_and!; [done|apply foldl_process_line_populated|].
  by rewrite parse_include_records, group_records_grouped, grouped_nil, records_nil.
Qed.

Lemma flat_output_groups_witness :
  ∃ valueSet,
    csvToValueSet example_host (csv_defaults "/data/empty.csv") = Ok valueSet
    ∧ Forall populated (compose_include valueSet)
    ∧ (compose_include valueSet = [] ↔
         Forall (λ line, first_field line = "") (data_lines header_only)).
Proof.
  apply (flat_output_groups example_host (csv_defaults "/data/empty.csv") header_only).
  reflexivity.
Defined.

(** The command run on the flat file of scenario 1 without options yields
    the status ['draft']. *)
Lemma scenario1_status_is_draft :
  ∃ valueSet,
    convert example_host "/data/codes.csv" no_options = Ok valueSet
    ∧ status valueSet = VStr "draft"
    ∧ status valueSet ≠ VStr "active".
Proof. eexists. split_and!; [reflexivity|reflexivity|discriminate]. Qed.

(** C6, amended.  Without explicit values, the flat conversion takes the id
    from the base name of the file less its [.csv] extension, the url from
    the fixed base followed by the resolved id, the name from the resolved id,
    leaves the description unset, and takes ['active'] for a status it is not
    given (or given empty).  The [convert] command always gives it a status,
    ['draft'] unless [--status] says otherwise. *)
Theorem csv_field_defaults :
  (∀ h options csv,
     readFileSync h (csvFile options) = Some csv →
     ∃ valueSet resolved,
       csvToValueSet h options = Ok valueSet
       ∧ id valueSet = VStr resolved
       ∧ (csv_id options = None →
            resolved = replace_suffix ".csv" "" (basename (csvFile options)))
       ∧ (csv_url options = None →
            url valueSet = VStr ("http://hl7.org/fhir/ValueSet/" +:+ resolved))
       ∧ (csv_name options = None → name valueSet = VStr resolved)
       ∧ (csv_description options = None → description valueSet = VUndefined)
       ∧ (csv_status options = None ∨ csv_status options = Some "" →
            status valueSet = VStr "active")
       ∧ (∀ s, csv_status options = Some s → s ≠ "" → status valueSet = VStr s))
  ∧ (∀ dir stem,
       "/"%char ∉ chars stem →
       replace_suffix ".csv" "" (basename (dir +:+ "/" +:+ stem +:+ ".csv")) = stem
       ∧ replace_suffix ".csv" "" (basename (stem +:+ ".csv")) = stem)
  ∧ (∀ h file cl csv,
       endsWith file ".csv" = true →
       readFileSync h file = Some csv →
       ∃ valueSet,
         convert h file cl = Ok valueSet
         ∧ (opt_status cl = None → status valueSet = VStr "draft")
         ∧ (∀ s, opt_status cl = Some s → s ≠ "" → status valueSet = VStr s)).
Proof.
  split_and!.
  - intros h [file st u n d i] csv Hread. simpl in Hread.
    unfold csvToValueSet. simpl. rewrite Hread.
    eexists _, _. split_and!; [reflexivity|reflexivity|..]; simpl.
    + by intros ->.
    + by intros ->.
    + by intros ->.
    + by intros ->.
    + by intros [-> | ->].
    + intros s -> Hs. simpl. by rewrite bool_decide_eq_false_2.
  - intros dir stem Hstem.
    split; [by apply basename_csv_in_directory | by apply basename_csv_plain].
  - intros h file [o u n d i st] csv Hext Hread.
    unfold convert, csvToValueSet, flat_options, options_status.
    rewrite Hext. simpl.
    rewrite Hread. eexists. split_and!; [reflexivity|..]; simpl.
    + by intros ->.
    + intros s -> Hs. simpl. by rewrite bool_decide_eq_false_2.
Qed.

Lemma csv_field_defaults_witness :
  (∃ valueSet,
     csvToValueSet example_host (csv_defaults "/data/codes.csv") = Ok valueSet
     ∧ id valueSet = VStr "codes"
     ∧ url valueSet = VStr "http://hl7.org/fhir/ValueSet/codes"
     ∧ name valueSet = VStr "codes"
     ∧ description valueSet = VUndefined
     ∧ status valueSet = VStr "active")
  ∧ replace_suffix ".csv" "" (basename ("/data" +:+ "/" +:+ "codes" +:+ ".csv")) = "codes"
  ∧ (∃ valueSet,
       convert example_host "/data/codes.csv" no_options = Ok valueSet
       ∧ status valueSet = VStr "draft").
Proof.
  destruct csv_field_defaults as (Hfields & Hbase & Hcommand).
  split_and!.
  - destruct (Hfields example_host (csv_defaults "/data/codes.csv") scenario1)
      as (vs & resolved & Hvs & Hid & Hres & Hurl & Hname & Hdesc & Hstatus & _);
      [reflexivity|].
    assert (resolved = "codes") as -> by (rewrite Hres; reflexivity).
    exists vs. split_and!; [exact Hvs | exact Hid | | | |].
    + rewrite Hurl; reflexivity.
    + apply Hname. reflexivity.
    + apply Hdesc. reflexivity.
    + apply Hstatus. left. reflexivity.
  - apply (Hbase "/data" "codes").
    unfold chars. simpl. rewrite !not_elem_of_cons.
    split_and!; try discriminate. apply not_elem_of_nil.
  - destruct (Hcommand example_host "/data/codes.csv" no_options scenario1)
      as (vs & Hvs & Hdraft & _); [reflexivity|reflexivity|].
    exists vs. split; [exact Hvs | apply Hdraft; reflexivity].
Defined.

(** ** The structured conversion *)

Lemma hasOwnProperty_error v key e : hasOwnProperty v key = Throw e → e = TypeError.
Proof.
  unfold hasOwnProperty.
  destruct v; try congruence; destruct (own_property _ _); congruence.
Qed.

(** Without a [codeSystem] property in [options], one pass of the loop body
    changes nothing, if it does not throw. *)
Lemma fill_property_without_codeSystem options property :
  own_lookup "codeSystem" options = None →
  fill_property options property = Ok options
  ∨ fill_property options property = Throw TypeError.
Proof.
  intros Hnone. unfold fill_property.
  destruct (hasOwnProperty (VObj options) property) as [own|e] eqn:Hown; simpl.
  2:{ right. by rewrite (hasOwnProperty_error _ _ _ Hown). }
  destruct own; simpl; [|by left].
  destruct (falsy _); simpl; [|by left].
  rewrite Hnone. simpl. by right.
Qed.

Lemma for_in_without_codeSystem keys options :
  own_lookup "codeSystem" options = None →
  for_in keys options = Ok options ∨ for_in keys options = Throw TypeError.
Proof.
  intros Hnone. induction keys as [|property keys IH]; simpl; [by left|].
  destruct (fill_property_without_codeSystem options property Hnone) as [-> | ->];
    simpl; [done | by right].
Qed.

(** The conversion cannot succeed on options without a [codeSystem]
    property. *)
Lemma codeSystemToValueSet_without_codeSystem h options :
  own_lookup "codeSystem" options = None →
  codeSystemToValueSet h options = Throw TypeError
  ∨ codeSystemToValueSet h options = Throw LoadError.
Proof.
  intros Hnone. unfold codeSystemToValueSet. simpl.
  destruct (load h _) as [doc|e] eqn:Hload; simpl.
  - destruct (for_in_without_codeSystem options.*1 options Hnone) as [-> | ->];
      simpl; [|by left].
    rewrite Hnone. simpl. by left.
  - unfold load in Hload.
    destruct (default VUndefined (own_lookup "jsonFile" options));
      try (injection Hload as <-; by left).
    destruct (require h s); [done|]. injection Hload as <-. by right.
Qed.

(** No run of the command on a file that is not [.csv] produces a document. *)
Lemma convert_structured_throws h file cl :
  endsWith file ".csv" = false →
  convert h file cl = Throw TypeError ∨ convert h file cl = Throw LoadError.
Proof.
  intros Hext. unfold convert. rewrite Hext.
  by apply codeSystemToValueSet_without_codeSystem.
Qed.

(** C1 (defect).  On the document of scenario 2 with status ['draft'] and no
    other option, the conversion ends in a [TypeError]: the loop reads the
    property [codeSystem] of the options, which the command never sets, and
    not the loaded document.  Were the document there, the url would be
    copied and the single group produced. *)
Theorem scenario2_throws :
  convert example_host "/data/codesystem.json" no_options = Throw TypeError
  ∧ codeSystemToValueSet example_host
      (with_codeSystem scenario2
         (structured_options "/data/codesystem.json" no_options))
    = Ok {| resourceType := "ValueSet";
            id := VUndefined;
            url := VStr "http://sys";
            name := VUndefined;
            description := VUndefined;
            status := VStr "draft";
            compose_include :=
              [ {| system := VStr "http://sys";
                   concept := Some [ {| code := VStr "A";
                                        display := VStr "Alpha";
                                        definition := VUndefined |} ] |} ] |}.
Proof. split; reflexivity. Qed.

(** C2 (defect).  On a document with an empty concept list the conversion
    ends in a [TypeError], not in the error of line 36; and with the document
    where line 35 reads it, an empty list passes the test, being truthy, and
    a document with one empty group is produced. *)
Theorem empty_concept_list_not_rejected :
  convert example_host "/data/empty.json" no_options = Throw TypeError
  ∧ Throw (A := ValueSet) TypeError
      ≠ Throw (Error "CodeSystem must have at least one concept")
  ∧ codeSystemToValueSet example_host
      (with_codeSystem no_concepts
         (structured_options "/data/empty.json" no_options))
    = Ok {| resourceType := "ValueSet";
            id := VUndefined;
            url := VStr "http://sys";
            name := VUndefined;
            description := VUndefined;
            status := VStr "draft";
            compose_include :=
              [ {| system := VStr "http://sys"; concept := Some [] |} ] |}.
Proof. split_and!; [reflexivity | discriminate | reflexivity]. Qed.

(** ** The output path *)

Lemma endsWith_value_set_json p :
  endsWith (p +:+ "-value-set.json") ".csv" = false.
Proof. unfold endsWith. by rewrite chars_app, reverse_app. Qed.

Lemma endsWith_csv_json p : endsWith (p +:+ ".csv") ".json" = false.
Proof. unfold endsWith. by rewrite chars_app, reverse_app. Qed.

(** Lines 154-166 on their own: with [--output] as a bare flag the document
    is written to the path derived from the input path; a trailing [.json]
    becomes [-value-set.json], a trailing [.csv] becomes [.json], and a path
    with neither ending is kept. *)
Lemma derived_output_path :
  (∀ h valueSet file,
     emit h valueSet file OutputFlag =
       WriteFileSync (derive_outFile file) (JSON_stringify h valueSet))
  ∧ (∀ p, derive_outFile (p +:+ ".json") = p +:+ "-value-set.json")
  ∧ (∀ p, derive_outFile (p +:+ ".csv") = p +:+ ".json")
  ∧ (∀ h valueSet file,
       endsWith file ".json" = false →
       endsWith file ".csv" = false →
       derive_outFile file = file
       ∧ emit h valueSet file OutputFlag =
           WriteFileSync file (JSON_stringify h valueSet))
  ∧ (∀ h file cl csv,
       endsWith file ".csv" = true →
       readFileSync h file = Some csv →
       opt_output cl = OutputFlag →
       ∃ valueSet,
         convert h file cl = Ok valueSet
         ∧ action h file cl =
             Ok (WriteFileSync (derive_outFile file) (JSON_stringify h valueSet))).
Proof.
  split_and!.
  - done.
  - intros p. unfold derive_outFile.
    rewrite (replace_suffix_app ".json" "-value-set.json").
    apply replace_suffix_other, endsWith_value_set_json.
  - intros p. unfold derive_outFile.
    rewrite (replace_suffix_other ".json") by apply endsWith_csv_json.
    apply (replace_suffix_app ".csv" ".json").
  - intros h valueSet file Hjson Hcsv.
    assert (derive_outFile file = file) as Hsame.
    { unfold derive_outFile.
      rewrite (replace_suffix_other ".json") by done.
      by apply replace_suffix_other. }
    split; [done|]. unfold emit. by rewrite Hsame.
  - intros h file cl csv Hext Hread Hflag. unfold action, convert.
    rewrite Hext.
    destruct (csvToValueSet_include h (flat_options file cl) csv Hread)
      as (vs & -> & _).
    exists vs. split; [done|]. simpl. by rewrite Hflag.
Qed.

(** * Further properties *)

(** ** Lines and fields *)

Lemma append_cons c a b : String c a +:+ b = String c (a +:+ b).
Proof. done. Qed.

Lemma split_head sep a b :
  sep ∉ chars a → split sep (a +:+ String sep b) = a :: split sep b.
Proof.
  induction a as [|c a IH]; intros Ha.
  - change ("" +:+ String sep b) with (String sep b). cbn [split].
    by rewrite bool_decide_eq_true_2.
  - apply not_elem_of_cons in Ha as [Hc Ha].
    rewrite append_cons. cbn [split].
    rewrite bool_decide_eq_false_2 by (intros ->; by apply Hc).
    by rewrite IH.
Qed.

Lemma split_last sep a b :
  sep ∉ chars b → split sep (a +:+ String sep b) = split sep a ++ [b].
Proof.
  intros Hb. induction a as [|c a IH].
  - change ("" +:+ String sep b) with (String sep b). cbn [split].
    by rewrite bool_decide_eq_true_2, split_no_separator.
  - rewrite append_cons. cbn [split]. rewrite IH.
    case_bool_decide; [done|].
    by destruct (split_cons sep a) as (w & ws & ->).
Qed.

Lemma split_fields sep s w :
  w ∈ split sep s → (sep ∉ chars w) ∧ (∀ c, c ∈ chars w → c ∈ chars s).
Proof.
  revert w. induction s as [|c s IH]; intros w; cbn [split].
  - intros ->%list_elem_of_singleton. split; [apply not_elem_of_nil | done].
  - case_bool_decide as Hc.
    + intros [->|Hw]%elem_of_cons.
      * split; [apply not_elem_of_nil | intros ? []%elem_of_nil].
      * destruct (IH w Hw) as [Hsep Hsub]. split; [done|].
        intros c' Hc'. right. by apply Hsub.
    + destruct (split_cons sep s) as (w0 & ws & Hsplit). rewrite Hsplit in *.
      intros [->|Hw]%elem_of_cons.
      * destruct (IH w0) as [Hsep Hsub]; [by left|]. split.
        -- intros [?|?]%elem_of_cons; [by apply Hc | by apply Hsep].
        -- intros c' [->|Hc']%elem_of_cons; [by left | right; by apply Hsub].
      * destruct (IH w) as [Hsep Hsub]; [by right|]. split; [done|].
        intros c' Hc'. right. by apply Hsub.
Qed.

Lemma data_lines_header header body :
  newline ∉ chars header →
  data_lines (header +:+ lf +:+ body) = split newline body.
Proof.
  intros Hh. unfold data_lines, lf.
  change (String newline "" +:+ body) with (String newline body).
  by rewrite split_head.
Qed.

Lemma data_lines_snoc csv line :
  newline ∉ chars line →
  data_lines (csv +:+ lf +:+ line) = data_lines csv ++ [line].
Proof.
  intros Hl. unfold data_lines, lf.
  change (String newline "" +:+ line) with (String newline line).
  rewrite split_last by done.
  by destruct (split_cons newline csv) as (w & ws & ->).
Qed.

(** X1.  Line 0 is dropped whatever it holds: the groups of a flat input are
    those of the lines after its first line separator, and an input without
    a line separator has no groups. *)
Theorem first_line_ignored :
  (∀ header body,
     newline ∉ chars header →
     parse_include (header +:+ lf +:+ body)
       = foldl process_line [] (split newline body))
  ∧ (∀ header1 header2 body,
       newline ∉ chars header1 → newline ∉ chars header2 →
       parse_include (header1 +:+ lf +:+ body)
         = parse_include (header2 +:+ lf +:+ body))
  ∧ (∀ only, newline ∉ chars only → parse_include only = []).
Proof.
  assert (∀ header body, newline ∉ chars header →
            parse_include (header +:+ lf +:+ body)
              = foldl process_line [] (split newline body)) as Hdrop.
  { intros header body Hh. unfold parse_include.
    fold (data_lines (header +:+ lf +:+ body)). by rewrite data_lines_header. }
  split_and!; [done| |].
  - intros h1 h2 body H1 H2. by rewrite !Hdrop.
  - intros only Ho. unfold parse_include. by rewrite split_no_separator.
Qed.

Lemma first_line_ignored_witness :
  parse_include ("A,http://sys,Alpha" +:+ lf +:+ "B,http://sys,Beta")
    = parse_include ("code,system,display" +:+ lf +:+ "B,http://sys,Beta")
  ∧ parse_include "A,http://sys,Alpha" = [].
Proof.
  destruct first_line_ignored as (_ & Hsame & Hone).
  assert (∀ s, bool_decide (newline ∈ chars s) = false → newline ∉ chars s) as Hno.
  { intros s Hs Hin. by rewrite bool_decide_eq_true_2 in Hs. }
  split.
  - apply Hsame; apply Hno; reflexivity.
  - apply Hone. apply Hno. reflexivity.
Defined.

(** X2.  Appending a line to a flat input runs the loop body once more on the
    groups of the input; a line separator at the end of the input changes
    nothing. *)
Theorem appended_line :
  (∀ csv line,
     newline ∉ chars line →
     parse_include (csv +:+ lf +:+ line) = process_line (parse_include csv) line)
  ∧ (∀ csv, parse_include (csv +:+ lf) = parse_include csv).
Proof.
  assert (∀ csv line, newline ∉ chars line →
            parse_include (csv +:+ lf +:+ line)
              = process_line (parse_include csv) line) as Hsnoc.
  { intros csv line Hl. unfold parse_include.
    fold (data_lines (csv +:+ lf +:+ line)). fold (data_lines csv).
    by rewrite data_lines_snoc, foldl_snoc. }
  split; [done|]. intros csv.
  rewrite <-(append_empty_r lf), (Hsnoc csv "") by apply not_elem_of_nil.
  done.
Qed.

Lemma appended_line_witness :
  parse_include (scenario1 +:+ lf +:+ "D,http://sys,Delta")
    = process_line (parse_include scenario1) "D,http://sys,Delta".
Proof.
  destruct appended_line as [Hsnoc _]. apply Hsnoc.
  intros Hin. assert (bool_decide (newline ∈ chars "D,http://sys,Delta") = false)
    as Hs by reflexivity.
  by rewrite bool_decide_eq_true_2 in Hs.
Defined.

(** X3.  A line made of a code, a system and a display that hold no comma
    places exactly that record, whatever follows a third comma; without the
    display field, or without system and display, the absent fields are
    [undefined]. *)
Theorem line_fields :
  ∀ include code sys display rest,
    comma ∉ chars code → comma ∉ chars sys → comma ∉ chars display →
    code ≠ "" →
    process_line include
        (code +:+ "," +:+ sys +:+ "," +:+ display +:+ "," +:+ rest)
      = add_record include (VStr code) (VStr sys) (VStr display)
    ∧ process_line include (code +:+ "," +:+ sys +:+ "," +:+ display)
      = add_record include (VStr code) (VStr sys) (VStr display)
    ∧ process_line include (code +:+ "," +:+ sys)
      = add_record include (VStr code) (VStr sys) VUndefined
    ∧ process_line include code
      = add_record include (VStr code) VUndefined VUndefined.
Proof.
  intros include code sys display rest Hc Hs Hd Hne.
  change "," with (String comma "").
  assert (∀ s, String comma "" +:+ s = String comma s) as Hsep by done.
  unfold process_line. rewrite !Hsep.
  split_and!.
  - rewrite !split_head by done.
    destruct (split_cons comma rest) as (w & ws & ->). cbn.
    by rewrite bool_decide_eq_false_2.
  - rewrite !split_head, split_no_separator by done. cbn.
    by rewrite bool_decide_eq_false_2.
  - rewrite !split_head, split_no_separator by done. cbn.
    by rewrite bool_decide_eq_false_2.
  - rewrite split_no_separator by done. cbn.
    by rewrite bool_decide_eq_false_2.
Qed.

Lemma line_fields_witness :
  process_line [] ("A" +:+ "," +:+ "http://sys" +:+ "," +:+ "Alpha" +:+ "," +:+ "x,y")
    = add_record [] (VStr "A") (VStr "http://sys") (VStr "Alpha").
Proof.
  assert (∀ s, bool_decide (comma ∈ chars s) = false → comma ∉ chars s) as Hno.
  { intros s Hs Hin. by rewrite bool_decide_eq_true_2 in Hs. }
  apply (line_fields [] "A" "http://sys" "Alpha" "x,y");
    [apply Hno; reflexivity .. | discriminate].
Defined.

(** ** The groups of a flat input *)

Lemma length_first_occurrences {A} `{EqDecision A} (l : list A) :
  length (first_occurrences l) ≤ length l.
Proof.
  induction l as [|x l IH]; [done|]. cbn [first_occurrences length].
  pose proof (length_filter (λ y, y ≠ x) (first_occurrences l)). lia.
Qed.

(** X4.  No two groups of a flat conversion have the same system, and there
    are no more groups than records. *)
Theorem one_group_per_system csv :
  NoDup (system <$> parse_include csv)
  ∧ length (parse_include csv) ≤ length (records csv)
  ∧ (∀ i j gi gj,
       parse_include csv !! i = Some gi → parse_include csv !! j = Some gj →
       i ≠ j → strict_equals (system gi) (system gj) = false).
Proof.
  rewrite parse_include_records, group_records_grouped. unfold grouped.
  set (keys := first_occurrences (rec_system <$> records csv)).
  assert (NoDup keys) as Hkeys by apply NoDup_first_occurrences.
  assert (Inj (=) (=) optional) as Hinj by (intros a b; apply optional_inj).
  split_and!.
  - rewrite <-list_fmap_compose. by apply (NoDup_fmap_2 (system ∘ group_of _)).
  - rewrite length_fmap. etrans; [apply length_first_occurrences|].
    by rewrite length_fmap.
  - intros i j gi gj Hi Hj Hij.
    apply list_lookup_fmap_Some in Hi as (ki & -> & Hi).
    apply list_lookup_fmap_Some in Hj as (kj & -> & Hj).
    simpl. destruct (strict_equals _ _) eqn:Heq; [|done].
    apply Is_true_true, strict_equals_optional in Heq as ->.
    destruct Hij. by eapply NoDup_lookup.
Qed.

(** ** Growth of the groups *)

Lemma add_record_grows include code sys display i group :
  include !! i = Some group →
  ∃ group',
    add_record include code sys display !! i = Some group'
    ∧ system group' = system group
    ∧ concepts_of group `prefix_of` concepts_of group'.
Proof.
  intros Hi. unfold add_record.
  destruct (findIndex sys include) as [j|].
  - destruct (decide (j = i)) as [->|Hne].
    + rewrite !list_lookup_alter_eq, Hi. simpl. eexists. split; [done|].
      set (c := {| code := code; display := display; definition := VUndefined |}).
      unfold push_concept, ensure_concept, concepts_of.
      destruct (concept group) as [cs|] eqn:Hc; simpl; rewrite ?Hc; simpl.
      * split; [done | by exists [c]].
      * split; [done | apply prefix_nil].
    + rewrite !list_lookup_alter_ne by done. by exists group.
  - rewrite lookup_app_l by (by eapply lookup_lt_Some). by exists group.
Qed.

Lemma process_line_grows include line i group :
  include !! i = Some group →
  ∃ group',
    process_line include line !! i = Some group'
    ∧ system group' = system group
    ∧ concepts_of group `prefix_of` concepts_of group'.
Proof.
  intros Hi. unfold process_line. destruct (falsy _).
  - by exists group.
  - by apply add_record_grows.
Qed.

(** X5.  The loop only ever extends: a group, once made, keeps its place and
    its system through all later lines, and the concepts it has stay the
    first concepts of its list, in their order. *)
Theorem groups_only_grow include lines i group :
  include !! i = Some group →
  ∃ group',
    foldl process_line include lines !! i = Some group'
    ∧ system group' = system group
    ∧ concepts_of group `prefix_of` concepts_of group'.
Proof.
  revert include group. induction lines as [|line lines IH];
    intros include group Hi; simpl.
  - by exists group.
  - destruct (process_line_grows include line i group Hi)
      as (g1 & H1 & Hsys1 & Hpre1).
    destruct (IH _ _ H1) as (g2 & H2 & Hsys2 & Hpre2).
    exists g2. split_and!; [done | congruence | by etrans].
Qed.

Lemma groups_only_grow_witness :
  ∃ group',
    foldl process_line (parse_include scenario1) ["D,http://sys,Delta"; "E,,"] !! 0
      = Some group'
    ∧ system group' = VStr "http://sys"
    ∧ [ {| code := VStr "A"; display := VStr "Alpha"; definition := VUndefined |};
        {| code := VStr "B"; display := VStr "Beta"; definition := VUndefined |} ]
      `prefix_of` concepts_of group'.
Proof.
  apply (groups_only_grow (parse_include scenario1)
           ["D,http://sys,Delta"; "E,,"] 0
           {| system := VStr "http://sys";
              concept := Some [ {| code := VStr "A"; display := VStr "Alpha";
                                   definition := VUndefined |};
                                {| code := VStr "B"; display := VStr "Beta";
                                   definition := VUndefined |} ] |}).
  reflexivity.
Defined.

(** ** What a flat conversion can hold *)

Lemma data_line_no_newline csv line :
  line ∈ data_lines csv → newline ∉ chars line.
Proof.
  unfold data_lines. intros Hin.
  assert (line ∈ split newline csv) as Hsplit.
  { apply list_elem_of_lookup in Hin as [i Hi]. rewrite lookup_drop in Hi.
    by eapply list_elem_of_lookup_2. }
  by apply split_fields in Hsplit as [? _].
Qed.

Lemma field_plain line s :
  newline ∉ chars line → s ∈ split comma line → plain s.
Proof.
  intros Hline [Hcomma Hsub]%split_fields. split; [done|].
  intros Hin. by apply Hline, Hsub.
Qed.

Lemma record_plain csv r :
  r ∈ records csv →
  rec_code r ≠ "" ∧ plain (rec_code r)
  ∧ plain_value (optional (rec_system r))
  ∧ plain_value (optional (rec_display r)).
Proof.
  unfold records. intros (line & Hline & Hrec)%list_elem_of_omap.
  apply data_line_no_newline in Hline.
  unfold record_of_line, first_field in Hrec.
  destruct (split_cons comma line) as (w & ws & Hsplit).
  pose proof (field_plain line) as Hplain. rewrite Hsplit in *. simpl in Hrec.
  case_bool_decide; [done|]. injection Hrec as <-. simpl.
  split_and!; [done | apply Hplain; [done | by left] | |].
  - destruct (ws !! 0) as [s|] eqn:Hs; simpl; [|done].
    apply Hplain; [done|]. right. by eapply list_elem_of_lookup_2.
  - destruct (ws !! 1) as [s|] eqn:Hs; simpl; [|done].
    apply Hplain; [done|]. right. by eapply list_elem_of_lookup_2.
Qed.

(** X6.  In the groups of a flat conversion every system and every display
    is a string without comma and line separator, or [undefined]; every code
    is such a string and not empty; and no concept has a definition. *)
Theorem flat_fields_plain csv group :
  group ∈ parse_include csv →
  plain_value (system group)
  ∧ ∀ c, c ∈ concepts_of group →
      (∃ s, code c = VStr s ∧ s ≠ "" ∧ plain s)
      ∧ plain_value (display c)
      ∧ definition c = VUndefined.
Proof.
  rewrite parse_include_records, group_records_grouped. unfold grouped.
  intros (k & -> & Hk)%list_elem_of_fmap.
  apply elem_of_first_occurrences, list_elem_of_fmap in Hk as (r & -> & Hr).
  split.
  - by apply record_plain in Hr as (_ & _ & ? & _).
  - intros c. unfold concepts_of, group_of, records_of_system. simpl.
    intros (r' & -> & [_ Hr']%list_elem_of_filter)%list_elem_of_fmap.
    apply record_plain in Hr' as (Hne & Hcode & _ & Hdisplay).
    split_and!; [by eexists | done | done].
Qed.

Lemma flat_fields_plain_witness :
  plain_value (VStr "http://other")
  ∧ ∀ c, c ∈ [ {| code := VStr "C"; display := VStr "Gamma";
                  definition := VUndefined |} ] →
      (∃ s, code c = VStr s ∧ s ≠ "" ∧ plain s)
      ∧ plain_value (display c)
      ∧ definition c = VUndefined.
Proof.
  apply (flat_fields_plain scenario1
           {| system := VStr "http://other";
              concept := Some [ {| code := VStr "C"; display := VStr "Gamma";
                                   definition := VUndefined |} ] |}).
  vm_compute. right. left.
Defined.

(** ** Options of the flat conversion *)

Lemma or_else_blank o fallback :
  or_else (blank_to_absent o) fallback = or_else o fallback.
Proof.
  destruct o as [s|]; [|done]. unfold blank_to_absent, or_else.
  case_bool_decide as Hs; [done|]. by rewrite bool_decide_eq_false_2.
Qed.

(** X7.  For the id, the url, the name and the status, an option given as the
    empty string is an option not given: the document is the same.  A
    description given as the empty string is kept, as the empty string. *)
Theorem blank_options_absent :
  (∀ h options,
     csvToValueSet h options =
       csvToValueSet h
         {| csvFile := csvFile options;
            csv_status := blank_to_absent (csv_status options);
            csv_url := blank_to_absent (csv_url options);
            csv_name := blank_to_absent (csv_name options);
            csv_description := csv_description options;
            csv_id := blank_to_absent (csv_id options) |})
  ∧ (∀ h options valueSet,
       csvToValueSet h options = Ok valueSet →
       description valueSet = optional (csv_description options)).
Proof.
  split.
  - intros h options. unfold csvToValueSet. simpl.
    destruct (readFileSync h (csvFile options)); [|done].
    by rewrite !or_else_blank.
  - intros h options vs. unfold csvToValueSet.
    destruct (readFileSync h (csvFile options)); [|done].
    by intros [= <-].
Qed.

Lemma blank_options_absent_witness :
  ∃ valueSet,
    csvToValueSet example_host
      {| csvFile := "/data/codes.csv"; csv_status := Some ""; csv_url := Some "";
         csv_name := Some ""; csv_description := Some ""; csv_id := Some "" |}
    = Ok valueSet
    ∧ description valueSet = VStr ""
    ∧ id valueSet = VStr "codes".
Proof.
  destruct blank_options_absent as [_ Hdesc].
  eexists. split; [reflexivity|]. split; [|reflexivity].
  eapply (Hdesc example_host
            {| csvFile := "/data/codes.csv"; csv_status := Some "";
               csv_url := Some ""; csv_name := Some "";
               csv_description := Some ""; csv_id := Some "" |}).
  reflexivity.
Defined.

(** ** Objects *)

Lemma own_lookup_None key (o : props) : own_lookup key o = None ↔ key ∉ o.*1.
Proof.
  induction o as [|[k v] o IH]; simpl.
  - split; [intros _; apply not_elem_of_nil | done].
  - rewrite not_elem_of_cons. case_bool_decide as Hk.
    + split; [done | intros [Hne _]; by destruct Hne].
    + rewrite IH. split; [intros ?; split; [congruence | done] | tauto].
Qed.

Lemma own_lookup_app key (o1 o2 : props) :
  own_lookup key (o1 ++ o2) =
    match own_lookup key o1 with
    | Some v => Some v
    | None => own_lookup key o2
    end.
Proof.
  induction o1 as [|[k v] o1 IH]; simpl; [done|]. by case_bool_decide.
Qed.

Lemma own_lookup_assign_eq key v (o : props) :
  own_lookup key (assign key v o) = Some v.
Proof.
  induction o as [|[k w] o IH]; simpl.
  - by rewrite bool_decide_eq_true_2.
  - case_bool_decide as Hk; simpl.
    + by rewrite bool_decide_eq_true_2.
    + by rewrite bool_decide_eq_false_2.
Qed.

Lemma own_lookup_assign_ne key key' v (o : props) :
  key ≠ key' → own_lookup key' (assign key v o) = own_lookup key' o.
Proof.
  intros Hne. induction o as [|[k w] o IH]; simpl.
  - by rewrite bool_decide_eq_false_2.
  - case_bool_decide as Hk; simpl.
    + subst k. by rewrite !bool_decide_eq_false_2.
    + by rewrite IH.
Qed.

Lemma assign_keys key v (o : props) :
  is_Some (own_lookup key o) → (assign key v o).*1 = o.*1.
Proof.
  induction o as [|[k w] o IH]; simpl; [by intros [? ?]|].
  case_bool_decide as Hk; [done|]. intros Hsome. cbn. f_equal. by apply IH.
Qed.

Lemma assign_app_fresh key v (o1 o2 : props) :
  key ∉ o1.*1 → assign key v (o1 ++ o2) = o1 ++ assign key v o2.
Proof.
  induction o1 as [|[k w] o1 IH]; simpl; [done|].
  rewrite not_elem_of_cons. intros [Hne Hnin].
  rewrite bool_decide_eq_false_2 by congruence. by rewrite IH.
Qed.

(** ** The loop over the options *)

(** What one pass of the loop body can do: nothing, or give a falsy own
    property another value. *)
Lemma fill_property_Ok options property options' :
  fill_property options property = Ok options' →
  options' = options
  ∨ ∃ current v,
      own_lookup property options = Some current
      ∧ falsy current = true
      ∧ options' = assign property v options.
Proof.
  unfold fill_property.
  destruct (hasOwnProperty (VObj options) property) as [own|] eqn:Hown;
    simpl; [|done].
  destruct own; simpl; [|intros [= <-]; by left].
  unfold hasOwnProperty in Hown. simpl in Hown.
  destruct (own_lookup "hasOwnProperty" options); [done|].
  injection Hown as Hown. apply bool_decide_eq_true in Hown as [current Hcur].
  rewrite Hcur. simpl.
  destruct (falsy current) eqn:Hfalsy; simpl; [|intros [= <-]; by left].
  set (cs := default VUndefined (own_lookup "codeSystem" options)).
  destruct (hasOwnProperty cs property) as [[]|]; simpl;
    [|intros [= <-]; by left|done].
  destruct (get cs property) as [v|]; simpl; [|done].
  intros [= <-]. right. by exists current, v.
Qed.

Lemma for_in_Ok keys options options' :
  for_in keys options = Ok options' →
  options'.*1 = options.*1
  ∧ ∀ key v, own_lookup key options = Some v → falsy v = false →
             own_lookup key options' = Some v.
Proof.
  revert options. induction keys as [|property keys IH]; intros options; simpl.
  - by intros [= <-].
  - destruct (fill_property options property) as [o1|] eqn:Hfill; simpl; [|done].
    intros [Hkeys Hkeep]%IH.
    apply fill_property_Ok in Hfill as [->|(cur & w & Hcur & Hfalsy & ->)];
      [done|].
    split.
    + by rewrite Hkeys, assign_keys by (by eexists).
    + intros key v Hv Htruthy. apply Hkeep; [|done].
      rewrite own_lookup_assign_ne; [done|]. intros ->. congruence.
Qed.

(** ** Successful structured conversions *)

Lemma codeSystemToValueSet_Ok h options valueSet :
  codeSystemToValueSet h options = Ok valueSet →
  ∃ options' cs concepts,
    for_in options.*1 options = Ok options'
    ∧ own_lookup "codeSystem" options' = Some cs
    ∧ array_map map_concept (default VUndefined (own_property cs "concept"))
        = Ok concepts
    ∧ valueSet =
        {| resourceType := "ValueSet";
           id := default VUndefined (own_lookup "id" options');
           url := default VUndefined (own_lookup "url" options');
           name := default VUndefined (own_lookup "name" options');
           description := default VUndefined (own_lookup "description" options');
           status := default VUndefined (own_lookup "status" options');
           compose_include :=
             [ {| system := default VUndefined (own_property cs "url");
                  concept := Some concepts |} ] |}.
Proof.
  unfold codeSystemToValueSet. simpl.
  destruct (load h _) as [doc|]; simpl; [|done].
  destruct (for_in _ options) as [options'|] eqn:Hloop; simpl; [|done].
  destruct (own_lookup "codeSystem" options') as [cs|] eqn:Hcs; simpl; [|done].
  intros Hrun. exists options', cs.
  assert (∃ concepts,
            array_map map_concept (default VUndefined (own_property cs "concept"))
              = Ok concepts
            ∧ Ok (A := ValueSet)
                {| resourceType := "ValueSet";
                   id := default VUndefined (own_lookup "id" options');
                   url := default VUndefined (own_lookup "url" options');
                   name := default VUndefined (own_lookup "name" options');
                   description := default VUndefined (own_lookup "description" options');
                   status := default VUndefined (own_lookup "status" options');
                   compose_include :=
                     [ {| system := default VUndefined (own_property cs "url");
                          concept := Some concepts |} ] |}
              = Ok valueSet) as (concepts & Hmap & [= <-]).
  { destruct cs; simpl in Hrun; try done;
      destruct (falsy _); try done;
      destruct (array_map map_concept _) as [concepts|]; try done;
      by exists concepts. }
  by exists concepts.
Qed.

(** X8.  A structured conversion that succeeds yields a document of type
    ValueSet with exactly one inclusion group, which has a concept list. *)
Theorem structured_single_group h options valueSet :
  codeSystemToValueSet h options = Ok valueSet →
  resourceType valueSet = "ValueSet"
  ∧ ∃ sys concepts,
      compose_include valueSet = [ {| system := sys; concept := Some concepts |} ].
Proof.
  intros (options' & cs & concepts & _ & _ & _ & ->)%codeSystemToValueSet_Ok.
  split; [done | by eexists _, _].
Qed.

Lemma structured_single_group_witness :
  ∃ valueSet,
    codeSystemToValueSet example_host
      (with_codeSystem no_concepts
         (structured_options "/data/empty.json" no_options)) = Ok valueSet
    ∧ resourceType valueSet = "ValueSet"
    ∧ ∃ sys concepts,
        compose_include valueSet = [ {| system := sys; concept := Some concepts |} ].
Proof.
  assert (codeSystemToValueSet example_host
            (with_codeSystem no_concepts
               (structured_options "/data/empty.json" no_options))
          = Ok {| resourceType := "ValueSet"; id := VUndefined;
                  url := VStr "http://sys"; name := VUndefined;
                  description := VUndefined; status := VStr "draft";
                  compose_include :=
                    [ {| system := VStr "http://sys"; concept := Some [] |} ] |})
    as Hrun by reflexivity.
  eexists. split; [exact Hrun|].
  exact (structured_single_group _ _ _ Hrun).
Defined.

(** X9.  An option the caller gave with a truthy value is never replaced: in
    the document of a successful structured conversion the id, url, name,
    description and status are the caller's, whatever [options.codeSystem]
    holds under these names. *)
Theorem explicit_options_kept h options valueSet :
  codeSystemToValueSet h options = Ok valueSet →
  (∀ v, own_lookup "id" options = Some v → falsy v = false → id valueSet = v)
  ∧ (∀ v, own_lookup "url" options = Some v → falsy v = false → url valueSet = v)
  ∧ (∀ v, own_lookup "name" options = Some v → falsy v = false →
          name valueSet = v)
  ∧ (∀ v, own_lookup "description" options = Some v → falsy v = false →
          description valueSet = v)
  ∧ (∀ v, own_lookup "status" options = Some v → falsy v = false →
          status valueSet = v).
Proof.
  intros (options' & cs & concepts & Hloop & _ & _ & ->)%codeSystemToValueSet_Ok.
  apply for_in_Ok in Hloop as [_ Hkeep]. simpl.
  split_and!; intros v Hv Htruthy; by rewrite (Hkeep _ v).
Qed.

Lemma explicit_options_kept_witness :
  ∃ valueSet,
    codeSystemToValueSet example_host
      (with_codeSystem scenario2
         [ ("jsonFile", VStr "/data/codesystem.json"); ("status", VStr "active");
           ("url", VStr "http://mine"); ("name", VUndefined) ]) = Ok valueSet
    ∧ url valueSet = VStr "http://mine"
    ∧ status valueSet = VStr "active".
Proof.
  assert (codeSystemToValueSet example_host
            (with_codeSystem scenario2
               [ ("jsonFile", VStr "/data/codesystem.json");
                 ("status", VStr "active");
                 ("url", VStr "http://mine"); ("name", VUndefined) ])
          = Ok {| resourceType := "ValueSet"; id := VUndefined;
                  url := VStr "http://mine"; name := VUndefined;
                  description := VUndefined; status := VStr "active";
                  compose_include :=
                    [ {| system := VStr "http://sys";
                         concept := Some [ {| code := VStr "A";
                                              display := VStr "Alpha";
                                              definition := VUndefined |} ] |} ] |})
    as Hrun by reflexivity.
  eexists. split; [exact Hrun|].
  destruct (explicit_options_kept _ _ _ Hrun) as (_ & Hurl & _ & _ & Hstatus).
  split; [apply Hurl | apply Hstatus]; reflexivity.
Defined.

(** ** The loop when the options hold the document *)

Lemma filled_keys doc (o : props) : (filled doc o).*1 = o.*1.
Proof. unfold filled. rewrite <-list_fmap_compose. by apply list_fmap_ext. Qed.

Lemma own_lookup_filled doc key (o : props) :
  own_lookup key (filled doc o) =
    (λ v, if falsy v then default v (own_lookup key doc) else v)
      <$> own_lookup key o.
Proof.
  induction o as [|[k v] o IH]; [done|]. cbn.
  case_bool_decide as Hk; [by subst k | done].
Qed.

Lemma own_lookup_filled_app doc key (done todo : props) w :
  own_lookup key (done ++ todo) = Some w → falsy w = false →
  own_lookup key (filled doc done ++ todo) = Some w.
Proof.
  rewrite !own_lookup_app, own_lookup_filled.
  destruct (own_lookup key done) as [v|]; simpl; [|done].
  intros [= ->] ->. done.
Qed.

Lemma own_lookup_filled_app_None doc key (done todo : props) :
  own_lookup key (done ++ todo) = None →
  own_lookup key (filled doc done ++ todo) = None.
Proof.
  rewrite !own_lookup_app, own_lookup_filled.
  by destruct (own_lookup key done).
Qed.

Lemma fill_property_with_codeSystem doc (o : props) k v :
  own_lookup "hasOwnProperty" o = None →
  own_lookup k o = Some v →
  own_lookup "codeSystem" o = Some (VObj doc) →
  own_lookup "hasOwnProperty" doc = None →
  fill_property o k =
    Ok (if falsy v
        then match own_lookup k doc with
             | Some w => assign k w o
             | None => o
             end
        else o).
Proof.
  intros Hown Hk Hcs Hdoc. unfold fill_property, hasOwnProperty, get. simpl.
  rewrite Hown, Hk. simpl. destruct (falsy v); simpl; [|done].
  rewrite Hcs. simpl. rewrite Hdoc.
  by destruct (own_lookup k doc).
Qed.

Lemma for_in_filled doc (done todo : props) :
  NoDup (done ++ todo).*1 →
  own_lookup "codeSystem" (done ++ todo) = Some (VObj doc) →
  own_lookup "hasOwnProperty" (done ++ todo) = None →
  own_lookup "hasOwnProperty" doc = None →
  for_in todo.*1 (filled doc done ++ todo) = Ok (filled doc (done ++ todo)).
Proof.
  revert done. induction todo as [|[k v] todo IH];
    intros done Hnodup Hcs Hown Hdoc.
  - by rewrite !app_nil_r.
  - assert (k ∉ done.*1) as Hfresh.
    { rewrite fmap_app in Hnodup. apply NoDup_app in Hnodup as (_ & Hdis & _).
      intros Hin. apply (Hdis k Hin). by left. }
    assert (own_lookup k (filled doc done ++ (k, v) :: todo) = Some v) as Hk.
    { rewrite own_lookup_app.
      assert (own_lookup k (filled doc done) = None) as ->
        by (by rewrite own_lookup_None, filled_keys).
      cbn. by rewrite bool_decide_eq_true_2. }
    specialize (IH (done ++ [(k, v)])). rewrite <-!app_assoc in IH.
    specialize (IH Hnodup Hcs Hown Hdoc).
    cbn [fmap list_fmap for_in fst].
    rewrite (fill_property_with_codeSystem doc _ k v);
      [ | by apply own_lookup_filled_app_None | done
        | by apply own_lookup_filled_app | done ].
    cbn [mbind result_bind]. etrans; [|exact IH]. f_equal.
    assert (filled doc (done ++ [(k, v)]) ++ todo
            = filled doc done
                ++ (k, if falsy v then default v (own_lookup k doc) else v) :: todo)
      as -> by (unfold filled; by rewrite fmap_app, <-app_assoc).
    destruct (falsy v); [|done].
    destruct (own_lookup k doc) as [w|]; cbn; [|done].
    rewrite assign_app_fresh by (by rewrite filled_keys). cbn.
    by rewrite bool_decide_eq_true_2.
Qed.

(** X10.  When [options.codeSystem] is an object, the loop of lines 27-32
    gives each falsy option the value of the object's property of the same
    name, where it has one, and leaves every other option as it is: all
    options, whatever their names. *)
Theorem loop_fills_from_codeSystem doc options :
  NoDup options.*1 →
  own_lookup "codeSystem" options = Some (VObj doc) →
  own_lookup "hasOwnProperty" options = None →
  own_lookup "hasOwnProperty" doc = None →
  for_in options.*1 options = Ok (filled doc options)
  ∧ ∀ key v,
      own_lookup key options = Some v →
      own_lookup key (filled doc options)
        = Some (if falsy v then default v (own_lookup key doc) else v).
Proof.
  intros Hnodup Hcs Hown Hdoc. split.
  - by apply (for_in_filled doc [] options).
  - intros key v Hv. by rewrite own_lookup_filled, Hv.
Qed.

Lemma loop_fills_from_codeSystem_witness :
  for_in
    (with_codeSystem scenario2
       (structured_options "/data/codesystem.json" no_options)).*1
    (with_codeSystem scenario2
       (structured_options "/data/codesystem.json" no_options))
  = Ok [ ("jsonFile", VStr "/data/codesystem.json"); ("status", VStr "draft");
         ("url", VStr "http://sys"); ("name", VUndefined);
         ("description", VUndefined); ("id", VUndefined);
         ("codeSystem", scenario2) ].
Proof.
  apply (loop_fills_from_codeSystem
           [ ("url", VStr "http://sys");
             ("concept", VArr [ VObj [ ("code", VStr "A");
                                       ("display", VStr "Alpha") ] ]) ]
           (with_codeSystem scenario2
              (structured_options "/data/codesystem.json" no_options)));
    [|reflexivity..].
  apply (bool_decide_unpack _). vm_compute. exact I.
Defined.

(** ** The concept list of the document *)

Lemma map_concept_readable c : readable c → map_concept c = Ok (concept_fields c).
Proof. intros [Hu Hn]. by destruct c. Qed.

Lemma map_concept_unreadable c : ¬ readable c → map_concept c = Throw TypeError.
Proof.
  intros Hc. destruct c; try done; destruct Hc; by split.
Qed.

Lemma map_concept_error c e : map_concept c = Throw e → e = TypeError.
Proof. destruct c; cbn; intros; by simplify_eq. Qed.

Lemma mapM_map_concept_readable elems :
  Forall readable elems →
  mapM map_concept elems = Ok (concept_fields <$> elems).
Proof.
  induction 1 as [|c elems Hc _ IH]; [done|].
  cbn [mapM]. rewrite map_concept_readable by done. cbn.
  fold (mapM map_concept elems). by rewrite IH.
Qed.

Lemma mapM_map_concept_unreadable elems :
  Exists (λ c, ¬ readable c) elems →
  mapM map_concept elems = Throw TypeError.
Proof.
  induction 1 as [c elems Hc|c elems _ IH].
  - cbn [mapM]. by rewrite map_concept_unreadable.
  - cbn [mapM]. destruct (map_concept c) as [x|e] eqn:Hx; cbn.
    + fold (mapM map_concept elems). by rewrite IH.
    + by rewrite (map_concept_error _ _ Hx).
Qed.

Section with_document.
Context (h : Host) (options doc : props) (file : string) (loaded : value).
Hypothesis Hkeys : NoDup options.*1.
Hypothesis Hfile : own_lookup "jsonFile" options = Some (VStr file).
Hypothesis Hload : require h file = Some loaded.
Hypothesis HcodeSystem : own_lookup "codeSystem" options = Some (VObj doc).
Hypothesis Hoptions : own_lookup "hasOwnProperty" options = None.
Hypothesis Hdoc : own_lookup "hasOwnProperty" doc = None.

Lemma codeSystemToValueSet_with_document :
  codeSystemToValueSet h options =
    let options' := filled doc options in
    let concept := default VUndefined (own_lookup "concept" doc) in
    if falsy concept
    then Throw (Error "CodeSystem must have at least one concept")
    else
      concepts ← array_map map_concept concept;
      Ok {| resourceType := "ValueSet";
            id := default VUndefined (own_lookup "id" options');
            url := default VUndefined (own_lookup "url" options');
            name := default VUndefined (own_lookup "name" options');
            description := default VUndefined (own_lookup "description" options');
            status := default VUndefined (own_lookup "status" options');
            compose_include :=
              [ {| system := default VUndefined (own_lookup "url" doc);
                   concept := Some concepts |} ] |}.
Proof.
  unfold codeSystemToValueSet. simpl. rewrite Hfile. simpl. rewrite Hload. simpl.
  pose proof (for_in_filled doc [] options Hkeys HcodeSystem Hoptions Hdoc)
    as Hloop.
  change (for_in options.*1 options = Ok (filled doc options)) in Hloop.
  rewrite Hloop.
  simpl. rewrite (own_lookup_filled doc "codeSystem"), HcodeSystem. simpl.
  by destruct (falsy _).
Qed.
End with_document.

(** X11.  With the document under [options.codeSystem], a concept list whose
    elements all have properties is mapped one to one, in order, to the
    concepts of the single group, each with the element's code, display and
    definition; the group's system is the document's url, and the metadata
    are the options as the loop filled them.  An empty list gives an empty
    group.  What [require] loaded has no part in the result. *)
Theorem structured_document_mapped h options doc file loaded elems :
  NoDup options.*1 →
  own_lookup "jsonFile" options = Some (VStr file) →
  require h file = Some loaded →
  own_lookup "codeSystem" options = Some (VObj doc) →
  own_lookup "hasOwnProperty" options = None →
  own_lookup "hasOwnProperty" doc = None →
  own_lookup "concept" doc = Some (VArr elems) →
  Forall readable elems →
  codeSystemToValueSet h options =
    Ok {| resourceType := "ValueSet";
          id := default VUndefined (own_lookup "id" (filled doc options));
          url := default VUndefined (own_lookup "url" (filled doc options));
          name := default VUndefined (own_lookup "name" (filled doc options));
          description :=
            default VUndefined (own_lookup "description" (filled doc options));
          status := default VUndefined (own_lookup "status" (filled doc options));
          compose_include :=
            [ {| system := default VUndefined (own_lookup "url" doc);
                 concept := Some (concept_fields <$> elems) |} ] |}.
Proof.
  intros Hkeys Hfile Hload Hcs Hown Hdoc Hconcept Helems.
  rewrite (codeSystemToValueSet_with_document h options doc file loaded) by done.
  cbn zeta. rewrite Hconcept.
  change (default VUndefined (Some (VArr elems))) with (VArr elems).
  cbn [falsy array_map]. by rewrite mapM_map_concept_readable.
Qed.

Lemma structured_document_mapped_witness :
  codeSystemToValueSet example_host
    (with_codeSystem scenario2
       (structured_options "/data/codesystem.json" no_options))
  = Ok {| resourceType := "ValueSet";
          id := VUndefined;
          url := VStr "http://sys";
          name := VUndefined;
          description := VUndefined;
          status := VStr "draft";
          compose_include :=
            [ {| system := VStr "http://sys";
                 concept :=
                   Some (concept_fields
                           <$> [ VObj [ ("code", VStr "A");
                                        ("display", VStr "Alpha") ] ]) |} ] |}.
Proof.
  refine (structured_document_mapped example_host
            (with_codeSystem scenario2
               (structured_options "/data/codesystem.json" no_options))
            [ ("url", VStr "http://sys");
              ("concept", VArr [ VObj [ ("code", VStr "A");
                                        ("display", VStr "Alpha") ] ]) ]
            "/data/codesystem.json" scenario2
            [ VObj [ ("code", VStr "A"); ("display", VStr "Alpha") ] ]
            _ _ _ _ _ _ _ _);
    [ apply (bool_decide_unpack _); vm_compute; exact I
    | reflexivity | reflexivity | reflexivity | reflexivity | reflexivity
    | reflexivity | ].
  repeat constructor; discriminate.
Defined.

(** X12.  With the document under [options.codeSystem]: a concept property
    that is absent or falsy ends the conversion in the error of line 36; one
    that is truthy but not an array, or an array with an element that is
    [undefined] or [null], ends it in a [TypeError]. *)
Theorem structured_concept_failures h options doc file loaded :
  NoDup options.*1 →
  own_lookup "jsonFile" options = Some (VStr file) →
  require h file = Some loaded →
  own_lookup "codeSystem" options = Some (VObj doc) →
  own_lookup "hasOwnProperty" options = None →
  own_lookup "hasOwnProperty" doc = None →
  (falsy (default VUndefined (own_lookup "concept" doc)) = true →
   codeSystemToValueSet h options
     = Throw (Error "CodeSystem must have at least one concept"))
  ∧ (∀ v, own_lookup "concept" doc = Some v → falsy v = false →
          (∀ elems, v ≠ VArr elems) →
          codeSystemToValueSet h options = Throw TypeError)
  ∧ (∀ elems, own_lookup "concept" doc = Some (VArr elems) →
              Exists (λ c, ¬ readable c) elems →
              codeSystemToValueSet h options = Throw TypeError).
Proof.
  intros Hkeys Hfile Hload Hcs Hown Hdoc.
  rewrite (codeSystemToValueSet_with_document h options doc file loaded) by done.
  cbn zeta. split_and!.
  - by intros ->.
  - intros v -> Hv Harr. change (default VUndefined (Some v)) with v.
    rewrite Hv. destruct v; try done. by destruct (Harr elems).
  - intros elems -> Hbad.
    change (default VUndefined (Some (VArr elems))) with (VArr elems).
    cbn [falsy array_map]. by rewrite mapM_map_concept_unreadable.
Qed.

Lemma structured_concept_failures_witness :
  codeSystemToValueSet example_host
    (with_codeSystem (VObj [ ("url", VStr "http://sys") ])
       (structured_options "/data/codesystem.json" no_options))
  = Throw (Error "CodeSystem must have at least one concept")
  ∧ codeSystemToValueSet example_host
      (with_codeSystem (VObj [ ("concept", VArr [ VNull ]) ])
         (structured_options "/data/codesystem.json" no_options))
    = Throw TypeError.
Proof.
  split.
  - apply (structured_concept_failures example_host _
             [ ("url", VStr "http://sys") ] "/data/codesystem.json" scenario2);
      [ apply (bool_decide_unpack _); vm_compute; exact I
      | reflexivity .. ].
  - eapply (structured_concept_failures example_host _
              [ ("concept", VArr [ VNull ]) ] "/data/codesystem.json" scenario2);
      [ apply (bool_decide_unpack _); vm_compute; exact I
      | reflexivity | reflexivity | reflexivity | reflexivity | reflexivity
      | reflexivity | ].
    left. intros [_ Hnull]. by apply Hnull.
Defined.

(** ** The loaded document *)

(** X13.  The structured conversion never reads the document it loads: its
    result is the same for any two hosts that both load, or both fail to
    load, the file named by the options, whatever the documents hold. *)
Theorem loaded_document_unread h1 h2 options :
  (∀ file, own_lookup "jsonFile" options = Some (VStr file) →
           (is_Some (require h1 file) ↔ is_Some (require h2 file))) →
  codeSystemToValueSet h1 options = codeSystemToValueSet h2 options.
Proof.
  intros Hsame. unfold codeSystemToValueSet. simpl.
  destruct (own_lookup "jsonFile" options) as [[]|]; simpl; try done.
  destruct (Hsame s eq_refl) as [H12 H21].
  destruct (require h1 s) as [d1|], (require h2 s) as [d2|]; simpl; try done.
  - by destruct H12.
  - by destruct H21.
Qed.

Lemma loaded_document_unread_witness :
  require example_host "/data/codesystem.json" = Some scenario2
  ∧ require swapped_host "/data/codesystem.json" = Some no_concepts
  ∧ codeSystemToValueSet example_host
      (with_codeSystem scenario2
         (structured_options "/data/codesystem.json" no_options))
    = codeSystemToValueSet swapped_host
        (with_codeSystem scenario2
           (structured_options "/data/codesystem.json" no_options)).
Proof.
  split_and!; [reflexivity | reflexivity |].
  apply loaded_document_unread. intros file [= <-].
  split; intros _; by eexists.
Defined.

(** ** The command on a structured input *)

(** X14.  The command run on a path that does not end in [.csv] never
    produces output: it ends in a [TypeError] when the file loads, and in the
    loader's failure when it does not, whatever the options. *)
Theorem structured_command_fails h file cl :
  endsWith file ".csv" = false →
  action h file cl =
    match require h file with
    | Some _ => Throw TypeError
    | None => Throw LoadError
    end.
Proof.
  intros Hext. unfold action, convert. rewrite Hext.
  unfold codeSystemToValueSet. simpl.
  destruct (require h file) as [doc|]; simpl; [|done].
  destruct (for_in_without_codeSystem
              (structured_options file cl).*1 (structured_options file cl))
    as [Hloop | Hloop]; [done | | ]; simpl in Hloop; by rewrite Hloop.
Qed.

Lemma structured_command_fails_witness :
  action example_host "/data/codesystem.json"
    {| opt_output := OutputFlag; opt_url := Some "http://mine";
       opt_name := Some "Mine"; opt_description := Some "All set";
       opt_id := Some "mine"; opt_status := Some "active" |}
  = Throw TypeError.
Proof.
  apply (structured_command_fails example_host "/data/codesystem.json").
  reflexivity.
Defined.

(** ** The written file *)

Lemma starts_with_inv p l : starts_with p l = true → ∃ k, l = p ++ k.
Proof.
  revert l. induction p as [|a p IH]; intros l; [by exists l|].
  destruct l as [|b l]; [done|]. cbn [starts_with].
  intros [Hab Hpl]%andb_true_iff. apply bool_decide_eq_true in Hab as ->.
  destruct (IH l Hpl) as [k ->]. by exists k.
Qed.

Lemma chars_of_chars l : chars (of_chars l) = l.
Proof. apply String.list_ascii_of_string_of_list_ascii. Qed.

Lemma endsWith_inv s suffix : endsWith s suffix = true → ∃ p, s = p +:+ suffix.
Proof.
  unfold endsWith. intros [k Hk]%starts_with_inv.
  exists (of_chars (reverse k)).
  rewrite <-(of_chars_chars s), <-(of_chars_chars suffix) at 1.
  rewrite <-of_chars_app. f_equal.
  apply (f_equal reverse) in Hk.
  by rewrite reverse_involutive, reverse_app, reverse_involutive in Hk.
Qed.

(** X15.  A run of the command with [--output] as a bare flag that writes a
    file has read a path [p.csv] and writes to [p.json]: it never writes to
    the path it read. *)
Theorem bare_flag_keeps_input h file cl outFile data :
  opt_output cl = OutputFlag →
  action h file cl = Ok (WriteFileSync outFile data) →
  (∃ p, file = p +:+ ".csv" ∧ outFile = p +:+ ".json") ∧ outFile ≠ file.
Proof.
  intros Hflag Hrun. unfold action in Hrun.
  destruct (convert h file cl) as [vs|] eqn:Hconvert; [|done].
  simpl in Hrun. rewrite Hflag in Hrun. simpl in Hrun. injection Hrun as <- _.
  destruct (endsWith file ".csv") eqn:Hext.
  - apply endsWith_inv in Hext as [p ->].
    assert (derive_outFile (p +:+ ".csv") = p +:+ ".json") as ->.
    { unfold derive_outFile.
      rewrite (replace_suffix_other ".json") by apply endsWith_csv_json.
      apply (replace_suffix_app ".csv" ".json"). }
    split; [by exists p|]. by intros ?%(inj (String.app p)).
  - destruct (convert_structured_throws h file cl Hext); congruence.
Qed.

Lemma bare_flag_keeps_input_witness :
  (∃ p, "/data/codes.csv" = p +:+ ".csv" ∧ "/data/codes.json" = p +:+ ".json")
  ∧ "/data/codes.json" ≠ "/data/codes.csv".
Proof.
  apply (bare_flag_keeps_input example_host "/data/codes.csv"
           {| opt_output := OutputFlag; opt_url := None; opt_name := None;
              opt_description := None; opt_id := None; opt_status := None |}
           "/data/codes.json" "ValueSet");
    reflexivity.
Defined.

(** ** Exact matching of systems *)

Lemma strict_equals_optional_iff v s :
  Is_true (strict_equals v (optional s)) ↔ v = optional s.
Proof.
  destruct v, s as [t|]; simpl; rewrite ?bool_decide_spec;
    split; try done; try discriminate;
    (by intros ->) || (by intros [= ->]).
Qed.

(** Where lines 88-101 put a record: in one group, whose system is the very
    value of the record's system, at the end of its concept list; every
    other group is left as it is. *)
Lemma add_record_joins include code s display :
  ∃ i group cs,
    add_record include code (optional s) display !! i = Some group
    ∧ system group = optional s
    ∧ concept group =
        Some (cs ++ [ {| code := code; display := display;
                         definition := VUndefined |} ])
    ∧ (∀ j, j ≠ i →
            add_record include code (optional s) display !! j = include !! j)
    ∧ (∀ j g, j < i → include !! j = Some g → system g ≠ optional s).
Proof.
  unfold add_record, findIndex.
  destruct (list_find _ include) as [[i g0]|] eqn:Hfind; simpl.
  - apply list_find_Some in Hfind as (Hi & Hsys & Hfirst).
    apply strict_equals_optional_iff in Hsys.
    exists i, (push_concept {| code := code; display := display;
                               definition := VUndefined |} (ensure_concept g0)),
      (concepts_of g0).
    split_and!.
    + by rewrite !list_lookup_alter_eq, Hi.
    + unfold push_concept, ensure_concept.
      by destruct (concept g0) eqn:Hc; simpl; rewrite ?Hc.
    + unfold push_concept, ensure_concept, concepts_of.
      by destruct (concept g0) eqn:Hc; simpl; rewrite ?Hc.
    + intros j Hj. by rewrite !list_lookup_alter_ne.
    + intros j g Hlt Hg Hsame. apply (Hfirst j g Hg Hlt).
      by apply strict_equals_optional_iff.
  - apply list_find_None in Hfind.
    exists (length include), {| system := optional s;
                                concept := Some [ {| code := code; display := display;
                                                     definition := VUndefined |} ] |},
      [].
    split_and!; [| done | done | |].
    + by rewrite lookup_app_r, Nat.sub_diag.
    + intros j Hj. destruct (decide (j < length include)) as [Hlt|Hge].
      * by rewrite lookup_app_l.
      * rewrite lookup_app_r by lia.
        destruct (j - length include) as [|n] eqn:Hn; [lia|].
        simpl. symmetry. apply lookup_ge_None. lia.
    + intros j g _ Hg Hsame. rewrite Forall_forall in Hfind.
      apply (Hfind g); [by eapply list_elem_of_lookup_2|].
      by apply strict_equals_optional_iff.
Qed.

(** C7.  Systems are matched by being the very same value: a record is put
    in one group, whose system is the value of its system field (the empty
    string for an empty field, [undefined] for a missing one), and no other
    group is touched; over a whole input, each record has its group, and a
    group holds the records of its system and no others.  A line that is a
    code alone yields, in whatever state the loop is, a concept with that
    code and no display, in a group without system. *)
Theorem grouping_exact_system_match :
  (∀ include code s display,
     ∃ i group cs,
       add_record include code (optional s) display !! i = Some group
       ∧ system group = optional s
       ∧ concept group =
           Some (cs ++ [ {| code := code; display := display;
                            definition := VUndefined |} ])
       ∧ (∀ j, j ≠ i →
               add_record include code (optional s) display !! j = include !! j)
       ∧ (∀ j g, j < i → include !! j = Some g → system g ≠ optional s))
  ∧ (∀ csv r,
       r ∈ records csv →
       ∃ group,
         group ∈ parse_include csv
         ∧ system group = optional (rec_system r)
         ∧ concept_of r ∈ concepts_of group)
  ∧ (∀ csv group s,
       group ∈ parse_include csv →
       system group = optional s →
       concept group = Some (concept_of <$> records_of_system s (records csv)))
  ∧ optional (Some "") = VStr "" ∧ optional None = VUndefined
  ∧ strict_equals (VStr "") VUndefined = false
  ∧ strict_equals VUndefined (VStr "") = false
  ∧ (∀ include line,
       comma ∉ chars line → line ≠ "" →
       ∃ i group cs,
         process_line include line !! i = Some group
         ∧ system group = VUndefined
         ∧ concept group =
             Some (cs ++ [ {| code := VStr line; display := VUndefined;
                              definition := VUndefined |} ])
         ∧ (∀ j, j ≠ i → process_line include line !! j = include !! j))
  ∧ (∀ include code display,
       comma ∉ chars code → comma ∉ chars display → code ≠ "" →
       ∃ i group cs,
         process_line include (code +:+ ",," +:+ display) !! i = Some group
         ∧ system group = VStr ""
         ∧ concept group =
             Some (cs ++ [ {| code := VStr code; display := VStr display;
                              definition := VUndefined |} ])
         ∧ (∀ j, j ≠ i →
                 process_line include (code +:+ ",," +:+ display) !! j
                   = include !! j)).
Proof.
  split_and!; [apply add_record_joins | | |done|done|done|done| |].
  - intros csv r Hr. exists (group_of (records csv) (rec_system r)).
    rewrite parse_include_records, group_records_grouped. unfold grouped.
    split_and!; [|done|].
    + apply list_elem_of_fmap_2, elem_of_first_occurrences.
      by apply list_elem_of_fmap_2.
    + unfold concepts_of, group_of, records_of_system. simpl.
      apply list_elem_of_fmap_2, list_elem_of_filter. by split.
  - intros csv group s.
    rewrite parse_include_records, group_records_grouped. unfold grouped.
    intros (k & -> & _)%list_elem_of_fmap Hsys. simpl in Hsys.
    by apply optional_inj in Hsys as ->.
  - intros include line Hcomma Hne.
    destruct (add_record_joins include (VStr line) None VUndefined)
      as (i & group & cs & Hi & Hsys & Hc & Hother & _).
    assert (process_line include line
            = add_record include (VStr line) (optional None) VUndefined) as ->.
    { unfold process_line. rewrite split_no_separator by done. simpl.
      by rewrite bool_decide_eq_false_2. }
    by exists i, group, cs.
  - intros include code display Hcode Hdisplay Hne.
    destruct (add_record_joins include (VStr code) (Some "") (VStr display))
      as (i & group & cs & Hi & Hsys & Hc & Hother & _).
    assert (process_line include (code +:+ ",," +:+ display)
            = add_record include (VStr code) (optional (Some "")) (VStr display))
      as ->.
    { unfold process_line.
      change (",," +:+ display) with (String comma (String comma display)).
      rewrite split_head by done.
      change (String comma display) with ("" +:+ String comma display).
      rewrite split_head by apply not_elem_of_nil.
      rewrite split_no_separator by done. cbn.
      by rewrite bool_decide_eq_false_2. }
    by exists i, group, cs.
Qed.

Lemma grouping_exact_system_match_witness :
  (∃ group,
     group ∈ parse_include mixed_systems
     ∧ system group = VUndefined
     ∧ {| code := VStr "A4"; display := VUndefined; definition := VUndefined |}
         ∈ concepts_of group)
  ∧ (∃ i group cs,
       process_line (parse_include scenario1) "A2" !! i = Some group
       ∧ system group = VUndefined
       ∧ concept group =
           Some (cs ++ [ {| code := VStr "A2"; display := VUndefined;
                            definition := VUndefined |} ])
       ∧ (∀ j, j ≠ i →
               process_line (parse_include scenario1) "A2" !! j
                 = parse_include scenario1 !! j))
  ∧ (∃ i group cs,
       process_line (parse_include mixed_systems) ("A5" +:+ ",," +:+ "Five") !! i
         = Some group
       ∧ system group = VStr ""
       ∧ concept group =
           Some (cs ++ [ {| code := VStr "A5"; display := VStr "Five";
                            definition := VUndefined |} ])
       ∧ (∀ j, j ≠ i →
               process_line (parse_include mixed_systems)
                 ("A5" +:+ ",," +:+ "Five") !! j
                 = parse_include mixed_systems !! j)).
Proof.
  destruct grouping_exact_system_match
    as (_ & Hrecord & _ & _ & _ & _ & _ & Hcode & Hempty).
  assert (∀ s, bool_decide (comma ∈ chars s) = false → comma ∉ chars s) as Hno.
  { intros s Hs Hin. by rewrite bool_decide_eq_true_2 in Hs. }
  split_and!.
  - apply (Hrecord mixed_systems
             {| rec_code := "A4"; rec_system := None; rec_display := None |}).
    vm_compute. do 3 right. left.
  - apply Hcode; [apply Hno; reflexivity | discriminate].
  - apply Hempty; [apply Hno; reflexivity .. | discriminate].
Defined.

(** ** The command on the structured scenario *)

(** C8 (defect).  Two runs of the command on the document of scenario 2 with
    the same options both end in the [TypeError] of line 28, before line 154
    serializes anything: there is no serialized output, of either run.  A
    run on another document at the same path ends the same way. *)
Theorem structured_runs_yield_no_output :
  action example_host "/data/codesystem.json" no_options = Throw TypeError
  ∧ convert example_host "/data/codesystem.json" no_options = Throw TypeError
  ∧ action swapped_host "/data/codesystem.json" no_options = Throw TypeError.
Proof. split_and!; reflexivity. Qed.

(** C10 (defect).  With [--output] as a bare flag, lines 160-161 would derive
    [-value-set.json] from [.json] and keep a path with neither ending, but
    the command run on such a path ends in the [TypeError] of line 28 and
    writes nothing; only for a [.csv] path is the derived file written. *)
Theorem bare_flag_structured_writes_nothing :
  derive_outFile "/data/codesystem.json" = "/data/codesystem-value-set.json"
  ∧ action example_host "/data/codesystem.json" bare_output = Throw TypeError
  ∧ derive_outFile "/data/codesystem" = "/data/codesystem"
  ∧ action plain_host "/data/codesystem" bare_output = Throw TypeError
  ∧ derive_outFile "/data/codes.csv" = "/data/codes.json"
  ∧ action example_host "/data/codes.csv" bare_output
    = Ok (WriteFileSync "/data/codes.json" "ValueSet").
Proof. split_and!; reflexivity. Qed.
